(** * NEAR balance checker: the page component [HomePage]

    A shallow embedding of the balance-retrieval logic of the page
    component (identifier validation, conversion of the raw amounts,
    error classification, and the request life cycle with its abort
    controller and timeout timer), followed by the properties proved
    about it. *)

From Stdlib Require Import String Ascii.
From Stdlib Require Import ZArith NArith List Bool Lia.
From Stdlib Require Import DecimalPos.
Import ListNotations.
Local Open Scope list_scope.
Local Open Scope char_scope.

(** ** JavaScript strings

    A JavaScript string is a sequence of UTF-16 code units. *)

Module JS.

Definition code_unit := N.
Definition jsstring := list code_unit.

(** An ASCII literal of the source as a sequence of code units. *)
Definition lit (s : string) : jsstring :=
  map N_of_ascii (list_ascii_of_string s).

(** A character literal of the source. *)
Definition ch (a : ascii) : code_unit := N_of_ascii a.

Definition quote : code_unit := 34%N.

Definition str_eqb (a b : jsstring) : bool :=
  if list_eq_dec N.eq_dec a b then true else false.

Definition is_empty (s : jsstring) : bool :=
  match s with [] => true | _ => false end.

Fixpoint dropWhile (p : code_unit -> bool) (s : jsstring) : jsstring :=
  match s with
  | [] => []
  | c :: t => if p c then dropWhile p t else s
  end.

(** WhiteSpace and LineTerminator code points, the ones
    [String.prototype.trim] strips. *)
Definition isWhiteSpace (c : code_unit) : bool :=
  (existsb (N.eqb c)
     [9; 10; 11; 12; 13; 32; 160; 5760; 8232; 8233; 8239; 8287; 12288; 65279]
   || ((8192 <=? c) && (c <=? 8202)))%N.

Definition trim (s : jsstring) : jsstring :=
  rev (dropWhile isWhiteSpace (rev (dropWhile isWhiteSpace s))).

Fixpoint startsWith (p s : jsstring) : bool :=
  match p, s with
  | [], _ => true
  | a :: p', b :: s' => (a =? b)%N && startsWith p' s'
  | _ :: _, [] => false
  end.

(** [String.prototype.includes]. *)
Fixpoint includes (s needle : jsstring) : bool :=
  startsWith needle s ||
  match s with
  | [] => false
  | _ :: t => includes t needle
  end.

(** [padStart(n, "0")]. *)
Definition padStart0 (n : nat) (s : jsstring) : jsstring :=
  repeat (ch "0") (n - length s) ++ s.

End JS.
Import JS.

(** ** Regular expressions

    The three patterns of the source are anchored at both ends and carry
    the [i] flag only, so [test] is a match of the whole string.  A
    pattern is matched by taking derivatives. *)

Module Regex.

Inductive regex : Type :=
| Void
| Eps
| Cls (members : list code_unit)
| Cat (r1 r2 : regex)
| Alt (r1 r2 : regex)
| Star (r : regex).

(** Canonicalize of the [i] flag without the [u] flag: a code unit is
    compared by its upper case, and a code unit outside ASCII is never
    mapped into ASCII.  The patterns here hold ASCII only, so only the
    ASCII letters matter. *)
Definition canonicalize (c : code_unit) : code_unit :=
  if ((97 <=? c) && (c <=? 122))%N then (c - 32)%N else c.
Arguments canonicalize : simpl never.

Definition cls_match (members : list code_unit) (c : code_unit) : bool :=
  existsb (fun a => (canonicalize a =? canonicalize c)%N) members.

Fixpoint nullable (r : regex) : bool :=
  match r with
  | Void => false
  | Eps => true
  | Cls _ => false
  | Cat r1 r2 => nullable r1 && nullable r2
  | Alt r1 r2 => nullable r1 || nullable r2
  | Star _ => true
  end.

Fixpoint deriv (c : code_unit) (r : regex) : regex :=
  match r with
  | Void => Void
  | Eps => Void
  | Cls m => if cls_match m c then Eps else Void
  | Cat r1 r2 =>
      if nullable r1
      then Alt (Cat (deriv c r1) r2) (deriv c r2)
      else Cat (deriv c r1) r2
  | Alt r1 r2 => Alt (deriv c r1) (deriv c r2)
  | Star r1 => Cat (deriv c r1) (Star r1)
  end.

(** [pattern.test(s)] for an anchored pattern. *)
Fixpoint test (r : regex) (s : jsstring) : bool :=
  match s with
  | [] => nullable r
  | c :: t => test (deriv c r) t
  end.

(** The language of a pattern, for reasoning about [test]. *)
Inductive matches : regex -> jsstring -> Prop :=
| MEps : matches Eps []
| MCls m c : cls_match m c = true -> matches (Cls m) [c]
| MCat r1 r2 s1 s2 :
    matches r1 s1 -> matches r2 s2 -> matches (Cat r1 r2) (s1 ++ s2)
| MAltL r1 r2 s : matches r1 s -> matches (Alt r1 r2) s
| MAltR r1 r2 s : matches r2 s -> matches (Alt r1 r2) s
| MStar0 r : matches (Star r) []
| MStarS r s1 s2 :
    matches r s1 -> matches (Star r) s2 -> matches (Star r) (s1 ++ s2).

(** Pattern syntax: [r+], [r{n}], a literal character, a literal word,
    and a range of a character class. *)
Definition Plus (r : regex) : regex := Cat r (Star r).

Fixpoint Rep (n : nat) (r : regex) : regex :=
  match n with
  | O => Eps
  | S k => Cat r (Rep k r)
  end.

Definition Chr (c : code_unit) : regex := Cls [c].

Fixpoint Word (w : jsstring) : regex :=
  match w with
  | [] => Eps
  | c :: t => Cat (Chr c) (Word t)
  end.

Definition range (lo hi : code_unit) : list code_unit :=
  map (fun k => (lo + N.of_nat k)%N) (seq 0 (S (N.to_nat (hi - lo)))).

End Regex.
Import Regex.

(** ** The identifier validator *)

Module Validator.

(** [[0-9a-f]] *)
Definition hex_class : list code_unit :=
  range (ch "0") (ch "9") ++ range (ch "a") (ch "f").

(** [[a-z0-9_-]] *)
Definition label_class : list code_unit :=
  range (ch "a") (ch "z") ++ range (ch "0") (ch "9") ++ [ch "_"; ch "-"].

Definition dot : code_unit := ch ".".

(** [/^[0-9a-f]{64}$/i] *)
Definition IMPLICIT_ADDRESS_REGEX : regex := Rep 64 (Cls hex_class).

(** [/^[a-z0-9_-]+(\.[a-z0-9_-]+)*\.(near|testnet)$/i] *)
Definition NAMED_ADDRESS_REGEX : regex :=
  Cat (Plus (Cls label_class))
      (Cat (Star (Cat (Chr dot) (Plus (Cls label_class))))
           (Cat (Chr dot) (Alt (Word (lit "near")) (Word (lit "testnet"))))).

(** [/^0x[0-9a-f]{40}$/i] *)
Definition ETHEREUM_LIKE_REGEX : regex :=
  Cat (Word (lit "0x")) (Rep 40 (Cls hex_class)).

Definition MSG_ENTER_ID : jsstring := lit "Please enter a NEAR account ID.".

Definition MSG_INVALID_ID : jsstring :=
  lit "Please enter a valid NEAR account ID (implicit address, named address like alice.near, or Ethereum-like address like 0x...).".

(** [validateAccountId]: [None] is the source's [null] (the identifier is
    accepted), [Some m] the error message. *)
Definition validateAccountId (id : jsstring) : option jsstring :=
  let trimmed := trim id in
  if is_empty trimmed then Some MSG_ENTER_ID
  else if test IMPLICIT_ADDRESS_REGEX trimmed then None
  else if test NAMED_ADDRESS_REGEX trimmed then None
  else if test ETHEREUM_LIKE_REGEX trimmed then None
  else Some MSG_INVALID_ID.

(** *** The accepted shapes in the words of the specification *)

Definition is_hex (c : code_unit) : bool := cls_match hex_class c.
Definition is_label_char (c : code_unit) : bool := cls_match label_class c.

(** Equality of two strings up to the case of ASCII letters. *)
Definition eq_icase (a b : jsstring) : bool :=
  str_eqb (map canonicalize a) (map canonicalize b).

(** The pieces of [s] between the occurrences of [d]. *)
Fixpoint split_on (d : code_unit) (s : jsstring) : list jsstring :=
  match s with
  | [] => [[]]
  | c :: t =>
      if (c =? d)%N then [] :: split_on d t
      else match split_on d t with
           | h :: r => (c :: h) :: r
           | [] => [[c]]
           end
  end.

(** The labels put together again, a dot between two of them. *)
Definition join_dots (labels : list jsstring) : jsstring :=
  match labels with
  | [] => []
  | l :: ls => l ++ concat (map (cons dot) ls)
  end.

Definition no_dot (l : jsstring) : bool :=
  forallb (fun c => negb (c =? dot)%N) l.

Definition is_label (l : jsstring) : bool :=
  negb (is_empty l) && forallb is_label_char l.

Definition is_network_suffix (l : jsstring) : bool :=
  eq_icase l (lit "near") || eq_icase l (lit "testnet").

(** a. exactly 64 hexadecimal characters *)
Definition shape_implicit (s : jsstring) : bool :=
  (length s =? 64)%nat && forallb is_hex s.

(** b. at least [least] dot-separated labels, the final one a network
    suffix *)
Definition shape_named (least : nat) (s : jsstring) : bool :=
  let labels := split_on dot s in
  (least <=? length labels)%nat
  && forallb is_label labels
  && is_network_suffix (last labels []).

(** c. [0x] followed by exactly 40 hexadecimal characters *)
Definition shape_ethereum (s : jsstring) : bool :=
  match s with
  | z :: x :: h =>
      (z =? ch "0")%N && (canonicalize x =? canonicalize (ch "x"))%N
      && (length h =? 40)%nat && forallb is_hex h
  | _ => false
  end.

(** The acceptance condition as the specification words it: "one or more"
    labels. *)
Definition spec_accepts (s : jsstring) : bool :=
  shape_implicit s || shape_named 1 s || shape_ethereum s.

(** The acceptance condition with at least one label before the suffix. *)
Definition accepts (s : jsstring) : bool :=
  shape_implicit s || shape_named 2 s || shape_ethereum s.

End Validator.
Import Validator.

(** ** Amounts in the smallest unit

    The raw amounts of the RPC are decimal strings; the source converts
    them with [BigInt] and renders a [bigint] with [toString]. *)

Module Amount.

Local Open Scope Z_scope.

Fixpoint uint_digits (u : Decimal.uint) : jsstring :=
  match u with
  | Decimal.Nil => []
  | Decimal.D0 v => ch "0" :: uint_digits v
  | Decimal.D1 v => ch "1" :: uint_digits v
  | Decimal.D2 v => ch "2" :: uint_digits v
  | Decimal.D3 v => ch "3" :: uint_digits v
  | Decimal.D4 v => ch "4" :: uint_digits v
  | Decimal.D5 v => ch "5" :: uint_digits v
  | Decimal.D6 v => ch "6" :: uint_digits v
  | Decimal.D7 v => ch "7" :: uint_digits v
  | Decimal.D8 v => ch "8" :: uint_digits v
  | Decimal.D9 v => ch "9" :: uint_digits v
  end.

(** [BigInt.prototype.toString()], radix 10. *)
Definition toString (z : Z) : jsstring :=
  match Z.to_int z with
  | Decimal.Pos u => uint_digits u
  | Decimal.Neg u => ch "-" :: uint_digits u
  end.

Definition in_range (lo hi c : code_unit) : bool :=
  ((lo <=? c) && (c <=? hi))%N.

Definition digit_value (radix : Z) (c : code_unit) : option Z :=
  let v :=
    if in_range (ch "0") (ch "9") c then Some (Z.of_N c - 48)
    else if in_range (ch "a") (ch "f") c then Some (Z.of_N c - 87)
    else if in_range (ch "A") (ch "F") c then Some (Z.of_N c - 55)
    else None in
  match v with
  | Some d => if d <? radix then Some d else None
  | None => None
  end.

Fixpoint digits_value (radix acc : Z) (s : jsstring) : option Z :=
  match s with
  | [] => Some acc
  | c :: t =>
      match digit_value radix c with
      | Some d => digits_value radix (acc * radix + d) t
      | None => None
      end
  end.

(** One or more digits of the radix. *)
Definition parse_digits (radix : Z) (s : jsstring) : option Z :=
  match s with
  | [] => None
  | _ => digits_value radix 0 s
  end.

(** The radix of a [0x], [0o] or [0b] literal, and its digits. *)
Definition radix_prefix (s : jsstring) : option (Z * jsstring) :=
  match s with
  | z :: p :: body =>
      if (z =? ch "0")%N then
        if (canonicalize p =? ch "X")%N then Some (16, body)
        else if (canonicalize p =? ch "O")%N then Some (8, body)
        else if (canonicalize p =? ch "B")%N then Some (2, body)
        else None
      else None
  | _ => None
  end.

(** [BigInt(s)] of a string (StringToBigInt): [None] is the SyntaxError. *)
Definition BigInt (s : jsstring) : option Z :=
  let t := trim s in
  match t with
  | [] => Some 0
  | c :: r =>
      if (c =? ch "-")%N then option_map Z.opp (parse_digits 10 r)
      else if (c =? ch "+")%N then parse_digits 10 r
      else match radix_prefix t with
           | Some (radix, body) => parse_digits radix body
           | None => parse_digits 10 t
           end
  end.

End Amount.
Import Amount.

(** ** [utils.format.formatNearAmount] of near-api-js

    The formatter is the library's (the import on line 4 of the page
    component); it is embedded here as the library defines it: the amount
    is rounded half up at [fracDigits] fractional digits, the whole part
    gets thousands separators, and trailing zeros of the fraction, with
    the decimal point when nothing is left of it, are removed. *)

Module Format.

Local Open Scope Z_scope.

Definition NEAR_NOMINATION_EXP : nat := 24.

(** [ROUNDING_OFFSETS[i]], defined for [i < NEAR_NOMINATION_EXP]. *)
Definition ROUNDING_OFFSETS (i : nat) : Z := 5 * 10 ^ Z.of_nat i.

Definition is_digit (c : code_unit) : bool := in_range (ch "0") (ch "9") c.

(** [s] is read from its last character; [n] counts the digits of the
    current run since the last separator. *)
Fixpoint commas_rev (n : nat) (s : jsstring) : jsstring :=
  match s with
  | [] => []
  | c :: t =>
      if is_digit c then
        if (n =? 3)%nat then ch "," :: c :: commas_rev 1 t
        else c :: commas_rev (S n) t
      else c :: commas_rev 0 t
  end.

(** [formatWithCommas]: the loop replaces [/(-?\d+)(\d{3})/] by [$1,$2]
    until it matches no more, which puts a comma before every group of
    three digits counted from the end of each run of digits. *)
Definition formatWithCommas (value : jsstring) : jsstring :=
  rev (commas_rev 0 (rev value)).

(** [trimTrailingZeroes]: [value.replace(/\.?0*$/, '')]. *)
Definition trimTrailingZeroes (value : jsstring) : jsstring :=
  rev (match dropWhile (N.eqb (ch "0")) (rev value) with
       | c :: r => if (c =? ch ".")%N then r else c :: r
       | [] => []
       end).

Definition formatNearAmount (balance : jsstring) (fracDigits : nat)
  : option jsstring :=
  match BigInt balance with
  | None => None
  | Some balanceBN =>
      let balanceBN :=
        if (fracDigits =? NEAR_NOMINATION_EXP)%nat then balanceBN
        else
          let roundingExp :=
            Z.of_nat NEAR_NOMINATION_EXP - Z.of_nat fracDigits - 1 in
          if 0 <? roundingExp
          then balanceBN + ROUNDING_OFFSETS (Z.to_nat roundingExp)
          else balanceBN in
      let balance := toString balanceBN in
      let cut := (length balance - NEAR_NOMINATION_EXP)%nat in
      let wholeStr :=
        match firstn cut balance with
        | [] => lit "0"
        | w => w
        end in
      let fractionStr :=
        firstn fracDigits
          (padStart0 NEAR_NOMINATION_EXP (skipn cut balance)) in
      Some (trimTrailingZeroes
              (formatWithCommas wholeStr ++ ch "." :: fractionStr))
  end.

End Format.
Import Format.

(** ** Conversion of the two raw amounts (lines 153 to 167) *)

Module Convert.

Local Open Scope Z_scope.

Record BalanceData : Type := {
  available : jsstring;
  staked : jsstring;
  total : jsstring
}.

(** [BigInt(availableBalance) + BigInt(stakedBalance)] *)
Definition totalYocto (availableBalance stakedBalance : jsstring)
  : option Z :=
  match BigInt availableBalance, BigInt stakedBalance with
  | Some a, Some s => Some (a + s)
  | _, _ => None
  end.

(** The record returned by the fetch; [None] when a conversion throws. *)
Definition balanceRecord (availableBalance stakedBalance : jsstring)
  : option BalanceData :=
  match totalYocto availableBalance stakedBalance with
  | None => None
  | Some t =>
      match formatNearAmount availableBalance 4,
            formatNearAmount stakedBalance 4,
            formatNearAmount (toString t) 4 with
      | Some formattedBalance, Some formattedStaked, Some formattedTotal =>
          Some {| available := formattedBalance;
                  staked := formattedStaked;
                  total := formattedTotal |}
      | _, _, _ => None
      end
  end.

End Convert.
Import Convert.

(** ** Classification of a failure (lines 205 to 218) *)

Module Classifier.

Record ErrorWithType : Type := {
  message : option jsstring;
  type : option jsstring
}.

(** The message the timer rejects with (line 91). *)
Definition TIMEOUT_REJECTION : jsstring :=
  lit "Request timed out. Please try again.".

Definition MSG_GENERIC : jsstring :=
  lit "An error occurred while fetching the balance.".
Definition MSG_TIMEOUT : jsstring :=
  lit "Request timed out. The network may be slow. Please try again.".
Definition MSG_NOT_FOUND (trimmedAccountId : jsstring) : jsstring :=
  lit "Account " ++ quote :: trimmedAccountId
    ++ quote :: lit " does not exist on NEAR mainnet.".
Definition MSG_PROVIDERS : jsstring :=
  lit "All RPC providers failed. The NEAR network may be experiencing issues. Please try again later.".
Definition MSG_NETWORK : jsstring :=
  lit "Network error. Please check your connection and try again.".
Definition MSG_OTHER (m : jsstring) : jsstring := lit "Error: " ++ m.

(** [error.message === m] *)
Definition message_is (error : ErrorWithType) (m : jsstring) : bool :=
  match message error with
  | Some s => str_eqb s m
  | None => false
  end.

(** [error.type === t] *)
Definition type_is (error : ErrorWithType) (t : jsstring) : bool :=
  match type error with
  | Some s => str_eqb s t
  | None => false
  end.

(** [error.message?.includes(w)], an undefined result being falsy. *)
Definition message_includes (error : ErrorWithType) (w : jsstring) : bool :=
  match message error with
  | Some s => includes s w
  | None => false
  end.

Definition errorMessage (trimmedAccountId : jsstring) (error : ErrorWithType)
  : jsstring :=
  if message_is error TIMEOUT_REJECTION then MSG_TIMEOUT
  else if type_is error (lit "AccountDoesNotExist")
  then MSG_NOT_FOUND trimmedAccountId
  else if message_includes error (lit "Exceeded 3 providers")
          || message_includes error (lit "Exceeded")
  then MSG_PROVIDERS
  else if message_includes error (lit "network")
          || message_includes error (lit "fetch")
  then MSG_NETWORK
  else match message error with
       | Some m => if is_empty m then MSG_GENERIC else MSG_OTHER m
       | None => MSG_GENERIC
       end.

End Classifier.
Import Classifier.

(** ** The request life cycle (lines 43 to 58 and 87 to 240)

    The component is run by one event loop.  A call of
    [handleFetchBalance] runs up to its [await] of the race and is then
    resumed by the event that settles the race: the settlement of
    [fetchPromise] or the firing of the timer.  [fetchPromise] itself is
    resumed by the answers of the network.  Every valid submission makes
    one [AbortController], one [fetchPromise] and one timer; they are kept
    together in a [Request], and [abortControllerRef] holds the index of
    the request whose controller it refers to. *)

Module Lifecycle.

(** Request timeout in milliseconds (30 seconds) *)
Definition REQUEST_TIMEOUT : N := 30000.

Record UI : Type := {
  accountId : jsstring;
  balanceData : option BalanceData;
  fetchedAccountId : option jsstring;
  loading : bool;
  error : option jsstring
}.

Inductive Outcome (A : Type) : Type :=
| Resolve (v : A)
| Reject (e : ErrorWithType).
Arguments Resolve {A} v.
Arguments Reject {A} e.

(** Where the async function of lines 127 to 168 is suspended, or how it
    ended. *)
Inductive FetchPhase : Type :=
| AwaitConnect
| AwaitAccount
| AwaitAll (liquid staked : option jsstring)
| Fulfilled (result : BalanceData)
| Rejected (e : ErrorWithType).

Inductive Timer : Type :=
| Pending (deadline : N)
| Cleared
| Fired.

(** [handleFetchBalance] is suspended at the race, or has returned. *)
Inductive Handler : Type :=
| Racing
| Returned.

Record Request : Type := {
  trimmedAccountId : jsstring;
  aborted : bool;              (* abortController.signal.aborted *)
  fetchPromise : FetchPhase;
  timeoutId : Timer;
  handler : Handler
}.

Record State : Type := {
  ui : UI;
  abortControllerRef : option nat;
  requests : list Request;
  clock : N;
  mounted : bool
}.

(** The events of the page.  [ConnectDone] and [AccountDone] are the
    answers to [connect] and [near.account] of request [i]; [LiquidDone]
    carries the [available] field of the answer of [getAccountBalance] and
    [StakedDone] the [total] field of the answer of
    [getActiveDelegatedStakeBalance]; [Tick] lets time pass. *)
Inductive Event : Type :=
| InputChange (value : jsstring)
| Submit
| ConnectDone (i : nat) (o : Outcome unit)
| AccountDone (i : nat) (o : Outcome unit)
| LiquidDone (i : nat) (o : Outcome jsstring)
| StakedDone (i : nat) (o : Outcome jsstring)
| TimerFires (i : nat)
| Tick (dt : N)
| Unmount.

Definition initial : State :=
  {| ui := {| accountId := []; balanceData := None;
              fetchedAccountId := None; loading := false; error := None |};
     abortControllerRef := None;
     requests := [];
     clock := 0;
     mounted := true |}.

(** *** Updates of the records *)

Definition setError (e : option jsstring) (u : UI) : UI :=
  {| accountId := accountId u; balanceData := balanceData u;
     fetchedAccountId := fetchedAccountId u; loading := loading u;
     error := e |}.

Definition setAccountId (v : jsstring) (u : UI) : UI :=
  {| accountId := v; balanceData := balanceData u;
     fetchedAccountId := fetchedAccountId u; loading := loading u;
     error := error u |}.

Definition setLoading (b : bool) (u : UI) : UI :=
  {| accountId := accountId u; balanceData := balanceData u;
     fetchedAccountId := fetchedAccountId u; loading := b;
     error := error u |}.

Definition setBalanceData (d : option BalanceData) (u : UI) : UI :=
  {| accountId := accountId u; balanceData := d;
     fetchedAccountId := fetchedAccountId u; loading := loading u;
     error := error u |}.

Definition setFetchedAccountId (a : option jsstring) (u : UI) : UI :=
  {| accountId := accountId u; balanceData := balanceData u;
     fetchedAccountId := a; loading := loading u;
     error := error u |}.

(** [controller.abort()] *)
Definition abort (r : Request) : Request :=
  {| trimmedAccountId := trimmedAccountId r; aborted := true;
     fetchPromise := fetchPromise r; timeoutId := timeoutId r;
     handler := handler r |}.

Definition with_fetch (p : FetchPhase) (r : Request) : Request :=
  {| trimmedAccountId := trimmedAccountId r; aborted := aborted r;
     fetchPromise := p; timeoutId := timeoutId r;
     handler := handler r |}.

Definition with_timer (t : Timer) (r : Request) : Request :=
  {| trimmedAccountId := trimmedAccountId r; aborted := aborted r;
     fetchPromise := fetchPromise r; timeoutId := t;
     handler := handler r |}.

Definition with_handler (h : Handler) (r : Request) : Request :=
  {| trimmedAccountId := trimmedAccountId r; aborted := aborted r;
     fetchPromise := fetchPromise r; timeoutId := timeoutId r;
     handler := h |}.

Fixpoint update (i : nat) (f : Request -> Request) (l : list Request)
  : list Request :=
  match l, i with
  | [], _ => []
  | r :: t, O => f r :: t
  | r :: t, S k => r :: update k f t
  end.

Definition with_ui (u : UI) (st : State) : State :=
  {| ui := u; abortControllerRef := abortControllerRef st;
     requests := requests st; clock := clock st; mounted := mounted st |}.

Definition with_requests (l : list Request) (st : State) : State :=
  {| ui := ui st; abortControllerRef := abortControllerRef st;
     requests := l; clock := clock st; mounted := mounted st |}.

(** *** The fetch (lines 127 to 168) *)

Definition CANCELLED : ErrorWithType :=
  {| message := Some (lit "Request cancelled"); type := None |}.

(** The SyntaxError of [BigInt] on a string that is no integer literal. *)
Definition SYNTAX_ERROR (s : jsstring) : ErrorWithType :=
  {| message := Some (lit "Cannot convert " ++ s ++ lit " to a BigInt");
     type := None |}.

(** One of the three checks of the abort signal. *)
Definition checkpoint (r : Request) (continue : FetchPhase) : FetchPhase :=
  if aborted r then Rejected CANCELLED else continue.

(** Lines 153 to 167, once both sub-queries have answered. *)
Definition conversion (availableBalance stakedBalance : jsstring)
  : FetchPhase :=
  match balanceRecord availableBalance stakedBalance with
  | Some result => Fulfilled result
  | None =>
      Rejected (SYNTAX_ERROR
                  (match BigInt availableBalance with
                   | None => availableBalance
                   | Some _ => stakedBalance
                   end))
  end.

(** The fetch resumed by an answer of the network; [None] when the fetch
    does not wait for that answer.  [Promise.all] rejects with the first
    rejection and resolves once both sub-queries have resolved.  An answer
    that nothing waits for any more (the second sub-query after
    [Promise.all] has rejected) has no continuation and is no event
    here. *)
Definition resume (r : Request) (e : Event) : option FetchPhase :=
  match fetchPromise r, e with
  | AwaitConnect, ConnectDone _ (Resolve _) => Some AwaitAccount
  | AwaitConnect, ConnectDone _ (Reject err) => Some (Rejected err)
  | AwaitAccount, AccountDone _ (Resolve _) =>
      Some (checkpoint r (AwaitAll None None))
  | AwaitAccount, AccountDone _ (Reject err) => Some (Rejected err)
  | AwaitAll None st, LiquidDone _ (Resolve a) =>
      match st with
      | Some s => Some (checkpoint r (conversion a s))
      | None => Some (AwaitAll (Some a) None)
      end
  | AwaitAll None _, LiquidDone _ (Reject err) => Some (Rejected err)
  | AwaitAll lq None, StakedDone _ (Resolve s) =>
      match lq with
      | Some a => Some (checkpoint r (conversion a s))
      | None => Some (AwaitAll None (Some s))
      end
  | AwaitAll _ None, StakedDone _ (Reject err) => Some (Rejected err)
  | _, _ => None
  end.

Definition settled (p : FetchPhase) : option (BalanceData + ErrorWithType) :=
  match p with
  | Fulfilled result => Some (inl result)
  | Rejected e => Some (inr e)
  | _ => None
  end.

(** *** [handleFetchBalance] *)

(** [createTimeoutPromise]: the timer started at [now]. *)
Definition createTimeoutPromise (timeoutMs now : N) : Timer :=
  Pending (now + timeoutMs).

Definition TIMEOUT_ERROR : ErrorWithType :=
  {| message := Some TIMEOUT_REJECTION; type := None |}.

Definition clearTimeout (t : Timer) : Timer :=
  match t with
  | Pending _ => Cleared
  | other => other
  end.

(** Lines 178 to 230: what the handler does to the state of the page once
    the race has settled with [o]. *)
Definition after_race (r : Request) (o : BalanceData + ErrorWithType)
    (u : UI) : UI :=
  if aborted r then u
  else
    match o with
    | inl result =>
        setLoading false
          (setFetchedAccountId (Some (trimmedAccountId r))
             (setBalanceData (Some result) u))
    | inr e =>
        setLoading false
          (setError (Some (errorMessage (trimmedAccountId r) e)) u)
    end.

(** The handler of request [i] resumed by the settlement [o] of its
    race. *)
Definition settle_race (i : nat) (r : Request)
    (o : BalanceData + ErrorWithType) (st : State) : State :=
  with_ui (after_race r o (ui st))
    (with_requests
       (update i (fun _ => with_handler Returned
                             (with_timer (clearTimeout (timeoutId r)) r))
          (requests st))
       st).

(** Lines 109 to 112, and the cleanup of lines 52 to 58. *)
Definition abort_current (st : State) : list Request :=
  match abortControllerRef st with
  | Some i => update i abort (requests st)
  | None => requests st
  end.

Definition handleFetchBalance (st : State) : State :=
  match validateAccountId (accountId (ui st)) with
  | Some validationError => with_ui (setError (Some validationError) (ui st)) st
  | None =>
      let trimmed := trim (accountId (ui st)) in
      let prior := abort_current st in
      let fresh :=
        {| trimmedAccountId := trimmed; aborted := false;
           fetchPromise := AwaitConnect;
           timeoutId := Cleared; handler := Racing |} in
      let started :=
        with_timer (createTimeoutPromise REQUEST_TIMEOUT (clock st))
          (with_fetch (checkpoint fresh AwaitConnect) fresh) in
      {| ui := setFetchedAccountId None
                 (setBalanceData None
                    (setError None (setLoading true (ui st))));
         abortControllerRef := Some (length prior);
         requests := prior ++ [started];
         clock := clock st;
         mounted := mounted st |}
  end.

Definition handleInputChange (value : jsstring) (st : State) : State :=
  let u := setAccountId value (ui st) in
  with_ui
    (match error (ui st) with
     | Some m => if is_empty m then u else setError None u
     | None => u
     end) st.

(** *** One step of the event loop; [None] when the event cannot occur *)

Definition fetch_event (i : nat) (e : Event) (st : State) : option State :=
  match nth_error (requests st) i with
  | None => None
  | Some r =>
      match resume r e with
      | None => None
      | Some p =>
          let r1 := with_fetch p r in
          match handler r, settled p with
          | Racing, Some o => Some (settle_race i r1 o st)
          | _, _ => Some (with_requests (update i (fun _ => r1) (requests st)) st)
          end
      end
  end.

Definition timer_event (i : nat) (st : State) : option State :=
  match nth_error (requests st) i with
  | None => None
  | Some r =>
      match timeoutId r with
      | Pending deadline =>
          if (deadline <=? clock st)%N then
            let r1 := with_timer Fired r in
            match handler r with
            | Racing => Some (settle_race i r1 (inr TIMEOUT_ERROR) st)
            | Returned =>
                Some (with_requests (update i (fun _ => r1) (requests st)) st)
            end
          else None
      | _ => None
      end
  end.

Definition step (st : State) (e : Event) : option State :=
  match e with
  | InputChange value =>
      if mounted st then Some (handleInputChange value st) else None
  | Submit => if mounted st then Some (handleFetchBalance st) else None
  | ConnectDone i _ | AccountDone i _ | LiquidDone i _ | StakedDone i _ =>
      fetch_event i e st
  | TimerFires i => timer_event i st
  | Tick dt =>
      Some {| ui := ui st; abortControllerRef := abortControllerRef st;
              requests := requests st; clock := (clock st + dt)%N;
              mounted := mounted st |}
  | Unmount =>
      if mounted st then
        Some {| ui := ui st; abortControllerRef := abortControllerRef st;
                requests := abort_current st; clock := clock st;
                mounted := false |}
      else None
  end.

Fixpoint run (st : State) (es : list Event) : option State :=
  match es with
  | [] => Some st
  | e :: t =>
      match step st e with
      | Some st' => run st' t
      | None => None
      end
  end.

Inductive reachable : State -> Prop :=
| reach_initial : reachable initial
| reach_step st e st' : reachable st -> step st e = Some st' -> reachable st'.

(** The request the event belongs to. *)
Definition request_of (e : Event) : option nat :=
  match e with
  | ConnectDone i _ | AccountDone i _ | LiquidDone i _ | StakedDone i _
  | TimerFires i => Some i
  | _ => None
  end.

(** A request is live while its handler waits for the race and its
    controller has not been aborted. *)
Definition live (r : Request) : bool :=
  match handler r with
  | Racing => negb (aborted r)
  | Returned => false
  end.

(** Every request whose controller has not been aborted is the one
    [abortControllerRef] refers to. *)
Definition sole_controller (st : State) : Prop :=
  forall i r,
    nth_error (requests st) i = Some r -> aborted r = false ->
    abortControllerRef st = Some i.

End Lifecycle.
Import Lifecycle.

(** ** What the page renders from its state (lines 255 to 338) *)

Module View.

(** [disabled={loading}] of the input (line 269) *)
Definition inputDisabled (u : UI) : bool := loading u.

(** [disabled={loading || !accountId.trim() ||
    validateAccountId(accountId) !== null}] of the button (line 275) *)
Definition submitDisabled (u : UI) : bool :=
  loading u
  || is_empty (trim (accountId u))
  || match validateAccountId (accountId u) with
     | None => false
     | Some _ => true
     end.

(** [{error && (...)}]: the alert is rendered when [error] is truthy
    (line 291). *)
Definition errorShown (u : UI) : bool :=
  match error u with
  | Some m => negb (is_empty m)
  | None => false
  end.

(** [fetchedAccountId && balanceData] (line 304): the balance panel and
    the links are rendered when both are truthy. *)
Definition hasBalanceData (u : UI) : bool :=
  match fetchedAccountId u with
  | Some a =>
      if is_empty a then false
      else match balanceData u with
           | Some _ => true
           | None => false
           end
  | None => false
  end.

(** The three links of the panel (lines 339, 347 and 355). *)
Definition pikespeakHref (a : jsstring) : jsstring :=
  lit "https://pikespeak.ai/wallet-explorer/" ++ a ++ lit "/money-flow".
Definition explorerHref (a : jsstring) : jsstring :=
  lit "https://explorer.mainnet.near.org/accounts/" ++ a.
Definition nearblocksHref (a : jsstring) : jsstring :=
  lit "https://nearblocks.io/address/" ++ a.

(** A character of an accepted identifier: a letter, a digit, [_], [-]
    or the dot. *)
Definition is_id_char (c : code_unit) : bool :=
  is_label_char c || (c =? dot)%N.

(** A character that needs no escaping in the path of a link. *)
Definition is_path_char (c : code_unit) : bool :=
  is_id_char c || (c =? ch "/")%N || (c =? ch ":")%N.

End View.
Import View.

(** ** Invariants of the page *)

Module Invariant.

(** A request names an accepted identifier; its timer is pending, and due
    within the timeout, exactly while its handler waits for the race. *)
Definition request_ok (now : N) (r : Request) : Prop :=
  accepts (trimmedAccountId r) = true /\
  match handler r with
  | Racing =>
      exists d, timeoutId r = Pending d /\ (d <= now + REQUEST_TIMEOUT)%N
  | Returned => forall d, timeoutId r <> Pending d
  end.

Definition page_ok (st : State) : Prop :=
  sole_controller st /\
  (forall i r,
      nth_error (requests st) i = Some r -> request_ok (clock st) r) /\
  (forall i r,
      nth_error (requests st) i = Some r -> live r = true ->
      loading (ui st) = true) /\
  (mounted st = true -> loading (ui st) = true ->
   exists i r,
     abortControllerRef st = Some i /\
     nth_error (requests st) i = Some r /\ live r = true) /\
  (mounted st = false ->
   forall i r, nth_error (requests st) i = Some r -> aborted r = true) /\
  (forall m, error (ui st) = Some m -> m <> []) /\
  (forall a, fetchedAccountId (ui st) = Some a -> accepts a = true) /\
  (balanceData (ui st) = None <-> fetchedAccountId (ui st) = None).

(** The fetch of a request has not reached its sub-queries. *)
Definition before_subqueries (p : FetchPhase) : bool :=
  match p with
  | AwaitConnect | AwaitAccount => true
  | _ => false
  end.

End Invariant.
Import Invariant.

(** A page on which [alice.near] has been typed. *)
Definition alice_typed : State := handleInputChange (lit "alice.near") initial.

(** The page after the events [es]. *)
Definition after (es : list Event) : State :=
  match run alice_typed es with
  | Some st => st
  | None => initial
  end.

(** * Properties *)

(** ** Sample runs *)

Example validate_alice : validateAccountId (lit "  alice.near ") = None.
Proof. vm_compute. reflexivity. Qed.
Example validate_near : validateAccountId (lit "near") = Some MSG_INVALID_ID.
Proof. vm_compute. reflexivity. Qed.
Example validate_near_spec : spec_accepts (lit "near") = true.
Proof. vm_compute. reflexivity. Qed.
Example validate_sub : validateAccountId (lit "Sub.account.TESTNET") = None.
Proof. vm_compute. reflexivity. Qed.
Example validate_eth :
  validateAccountId (lit "0X85f17cf997934a597031b2e18a9ab6ebd4b9f6a4") = None.
Proof. vm_compute. reflexivity. Qed.
Example validate_bad : validateAccountId (lit "not_a_valid_id!!") = Some MSG_INVALID_ID.
Proof. vm_compute. reflexivity. Qed.

Example toString_0 : toString 0 = lit "0".
Proof. vm_compute. reflexivity. Qed.
Example BigInt_two_70 : BigInt (toString (2 ^ 70)) = Some (2 ^ 70)%Z.
Proof. vm_compute. reflexivity. Qed.
Example BigInt_hex : BigInt (lit " 0x1F ") = Some 31%Z.
Proof. vm_compute. reflexivity. Qed.
Example commas_millions : formatWithCommas (lit "1234567") = lit "1,234,567".
Proof. vm_compute. reflexivity. Qed.
Example format_one : formatNearAmount (lit "1000000000000000000000000") 4 = Some (lit "1").
Proof. vm_compute. reflexivity. Qed.
Example format_thousandth : formatNearAmount (lit "3000000000000000000000") 4 = Some (lit "0.003").
Proof. vm_compute. reflexivity. Qed.
Example format_commas : formatNearAmount (lit "9999989999999998370878870000000") 24 = Some (lit "9,999,989.99999999837087887").
Proof. vm_compute. reflexivity. Qed.
Example format_rounds_up : formatNearAmount (lit "999999999999999999000000") 10 = Some (lit "1").
Proof. vm_compute. reflexivity. Qed.
Example format_no_fraction : formatNearAmount (lit "3500000000000000000000") 0 = Some (lit "0").
Proof. vm_compute. reflexivity. Qed.
Example format_small : formatNearAmount (lit "8999999999837087887") 24 = Some (lit "0.000008999999999837087887").
Proof. vm_compute. reflexivity. Qed.
Example record_alice : balanceRecord (lit "1000000000000000000000000") (lit "500000000000000000000000")
  = Some {| available := lit "1"; staked := lit "0.5"; total := lit "1.5" |}.
Proof. vm_compute. reflexivity. Qed.
Example classify_exhausted : errorMessage (lit "alice.near") {| message := Some (lit "Exceeded 3 providers to execute request"); type := Some (lit "RetriesExceeded") |} = MSG_PROVIDERS.
Proof. vm_compute. reflexivity. Qed.

Example run_success :
  option_map ui (run alice_typed
    [Submit; ConnectDone 0 (Resolve tt); AccountDone 0 (Resolve tt);
     StakedDone 0 (Resolve (lit "500000000000000000000000"));
     LiquidDone 0 (Resolve (lit "1000000000000000000000000"))])
  = Some {| accountId := lit "alice.near";
            balanceData := Some {| available := lit "1"; staked := lit "0.5"; total := lit "1.5" |};
            fetchedAccountId := Some (lit "alice.near"); loading := false; error := None |}.
Proof. vm_compute. reflexivity. Qed.
Example run_timeout :
  option_map ui (run alice_typed
    [Submit; ConnectDone 0 (Resolve tt); Tick 30000; TimerFires 0; AccountDone 0 (Resolve tt);
     StakedDone 0 (Resolve (lit "500000000000000000000000"));
     LiquidDone 0 (Resolve (lit "1000000000000000000000000"))])
  = Some {| accountId := lit "alice.near";
            balanceData := None;
            fetchedAccountId := None; loading := false; error := Some MSG_TIMEOUT |}.
Proof. vm_compute. reflexivity. Qed.
Example run_unmount :
  option_map requests (run alice_typed [Submit; Unmount])
  = Some [ {| trimmedAccountId := lit "alice.near"; aborted := true; fetchPromise := AwaitConnect;
              timeoutId := Pending 30000; handler := Racing |} ].
Proof. vm_compute. reflexivity. Qed.
Example run_timer_early :
  run alice_typed [Submit; Tick 29999; TimerFires 0] = None.
Proof. vm_compute. reflexivity. Qed.

(** ** Matching by derivatives agrees with the language of a pattern *)

Lemma nullable_matches r : nullable r = true <-> matches r [].
Proof.
  split.
  - induction r; simpl; intros H; try discriminate.
    + constructor.
    + apply andb_true_iff in H as [H1 H2].
      change (@nil code_unit) with (@nil code_unit ++ []). constructor; auto.
    + apply orb_true_iff in H as [H|H]; [apply MAltL|apply MAltR]; auto.
    + constructor.
  - intros H. remember [] as s eqn:E.
    induction H; simpl; auto; try discriminate.
    + apply app_eq_nil in E as [-> ->]. rewrite IHmatches1, IHmatches2; auto.
    + rewrite IHmatches; auto.
    + rewrite IHmatches, orb_true_r; auto.
Qed.

Lemma deriv_sound c r : forall s, matches (deriv c r) s -> matches r (c :: s).
Proof.
  induction r; simpl; intros s H.
  - inversion H.
  - inversion H.
  - destruct (cls_match members c) eqn:E; inversion H; subst. now constructor.
  - destruct (nullable r1) eqn:N.
    + inversion H; subst.
      * match goal with X : matches (Cat _ _) _ |- _ => inversion X; subst end.
        change (c :: s1 ++ s2) with ((c :: s1) ++ s2). constructor; auto.
      * change (c :: s) with ([] ++ c :: s). constructor; auto.
        now apply nullable_matches.
    + inversion H; subst.
      change (c :: s1 ++ s2) with ((c :: s1) ++ s2). constructor; auto.
  - inversion H; subst; [apply MAltL|apply MAltR]; auto.
  - inversion H; subst.
    change (c :: s1 ++ s2) with ((c :: s1) ++ s2). constructor; auto.
Qed.

Lemma deriv_complete c r w :
  matches r w -> forall t, w = c :: t -> matches (deriv c r) t.
Proof.
  induction 1; intros t E; simpl; try discriminate.
  - injection E as -> <-. rewrite H. constructor.
  - destruct s1 as [|a s1]; simpl in E.
    + subst s2. apply nullable_matches in H. rewrite H.
      apply MAltR. now apply IHmatches2.
    + injection E as -> <-.
      assert (X : matches (Cat (deriv c r1) r2) (s1 ++ s2))
        by (constructor; auto).
      destruct (nullable r1); [now apply MAltL | exact X].
  - apply MAltL; auto.
  - apply MAltR; auto.
  - destruct s1 as [|a s1]; simpl in E.
    + now apply IHmatches2.
    + injection E as -> <-. constructor; auto.
Qed.

Lemma test_matches s : forall r, test r s = true <-> matches r s.
Proof.
  induction s as [|c s IH]; intros r; simpl.
  - apply nullable_matches.
  - rewrite IH. split; [apply deriv_sound |].
    intros H. now apply (deriv_complete c r _ H).
Qed.

Lemma matches_cat r1 r2 s :
  matches (Cat r1 r2) s <->
  exists s1 s2, s = s1 ++ s2 /\ matches r1 s1 /\ matches r2 s2.
Proof.
  split.
  - intros H; inversion H; subst; eauto.
  - intros (s1 & s2 & -> & H1 & H2). now constructor.
Qed.

Lemma matches_alt r1 r2 s :
  matches (Alt r1 r2) s <-> matches r1 s \/ matches r2 s.
Proof.
  split.
  - intros H; inversion H; subst; auto.
  - intros [H|H]; [apply MAltL|apply MAltR]; auto.
Qed.

Lemma matches_cls m s :
  matches (Cls m) s <-> exists c, s = [c] /\ cls_match m c = true.
Proof.
  split.
  - intros H; inversion H; subst; eauto.
  - intros (c & -> & H). now constructor.
Qed.

Lemma matches_eps s : matches Eps s <-> s = [].
Proof.
  split.
  - intros H; inversion H; auto.
  - intros ->. constructor.
Qed.

Lemma matches_rep_cls m n : forall s,
  matches (Rep n (Cls m)) s <->
  length s = n /\ forallb (cls_match m) s = true.
Proof.
  induction n as [|n IH]; intros s; simpl.
  - rewrite matches_eps. split.
    + intros ->. auto.
    + intros [H _]. now apply length_zero_iff_nil.
  - rewrite matches_cat. split.
    + intros (s1 & s2 & -> & H1 & H2).
      apply matches_cls in H1 as (c & -> & Hc). apply IH in H2 as [L F].
      simpl. rewrite Hc, F, L. auto.
    + intros [L F]. destruct s as [|c s]; [discriminate|].
      simpl in *. apply andb_true_iff in F as [Fc F].
      exists [c], s. repeat split; auto.
      * apply matches_cls; eauto.
      * apply IH. split; [lia | auto].
Qed.

Lemma matches_star_cls m s :
  matches (Star (Cls m)) s <-> forallb (cls_match m) s = true.
Proof.
  split.
  - intros H. remember (Star (Cls m)) as r eqn:E.
    induction H; try discriminate; auto.
    injection E as ->. inversion H; subst. simpl.
    rewrite IHmatches2 by reflexivity.
    match goal with X : cls_match _ _ = true |- _ => rewrite X end. auto.
  - induction s as [|c s IH]; simpl; intros H.
    + constructor.
    + apply andb_true_iff in H as [Hc H].
      change (c :: s) with ([c] ++ s). constructor; auto. now constructor.
Qed.

Lemma matches_plus_cls m s :
  matches (Plus (Cls m)) s <->
  s <> [] /\ forallb (cls_match m) s = true.
Proof.
  unfold Plus. rewrite matches_cat. split.
  - intros (s1 & s2 & -> & H1 & H2).
    apply matches_cls in H1 as (c & -> & Hc). apply matches_star_cls in H2.
    simpl. rewrite Hc, H2. split; [discriminate | auto].
  - intros [N F]. destruct s as [|c s]; [contradiction|].
    simpl in F. apply andb_true_iff in F as [Fc F].
    exists [c], s. repeat split; auto.
    + apply matches_cls; eauto.
    + now apply matches_star_cls.
Qed.

Lemma matches_word w : forall s,
  matches (Word w) s <-> map canonicalize s = map canonicalize w.
Proof.
  induction w as [|a w IH]; intros s; simpl.
  - rewrite matches_eps. split.
    + intros ->. auto.
    + intros H. now apply map_eq_nil in H.
  - rewrite matches_cat. split.
    + intros (s1 & s2 & -> & H1 & H2).
      apply matches_cls in H1 as (c & -> & Hc). apply IH in H2.
      unfold cls_match in Hc. simpl in Hc. rewrite orb_false_r in Hc.
      apply N.eqb_eq in Hc. simpl. now rewrite H2, Hc.
    + intros H. destruct s as [|c s]; [discriminate|].
      simpl in H. injection H as Hc H.
      exists [c], s. repeat split; auto.
      * apply matches_cls. exists c. split; auto.
        unfold cls_match. simpl. rewrite Hc, N.eqb_refl. auto.
      * now apply IH.
Qed.

(** ** Characters *)

Lemma canonicalize_cases c :
  ((97 <= c <= 122)%N /\ canonicalize c = (c - 32)%N) \/
  (~ (97 <= c <= 122)%N /\ canonicalize c = c).
Proof.
  unfold canonicalize.
  destruct (N.leb_spec 97 c); destruct (N.leb_spec c 122); simpl;
    [left | right | right | right]; split; auto; lia.
Qed.

Lemma canonicalize_dot c : canonicalize c = canonicalize dot -> c = dot.
Proof.
  change (canonicalize dot) with 46%N. change dot with 46%N.
  destruct (canonicalize_cases c) as [[R E]|[R E]]; rewrite E; lia.
Qed.

Lemma canonicalize_zero c : canonicalize c = ch "0" <-> c = ch "0".
Proof.
  change (ch "0") with 48%N.
  destruct (canonicalize_cases c) as [[R E]|[R E]]; rewrite E; lia.
Qed.

Lemma cls_match_canon m c c' :
  canonicalize c = canonicalize c' -> cls_match m c = cls_match m c'.
Proof. unfold cls_match. now intros ->. Qed.

Lemma cls_match_ascii m c :
  forallb (fun a => (canonicalize a <? 128)%N) m = true ->
  cls_match m c = true -> (c < 128)%N.
Proof.
  intros A H. unfold cls_match in H.
  apply existsb_exists in H as (a & I & E).
  rewrite forallb_forall in A. specialize (A a I).
  apply N.ltb_lt in A. apply N.eqb_eq in E. rewrite E in A.
  destruct (canonicalize_cases c) as [[R C]|[R C]]; rewrite C in A; lia.
Qed.

Lemma below_128 (P : code_unit -> bool) :
  forallb P (range 0%N 127%N) = true ->
  forall c, (c < 128)%N -> P c = true.
Proof.
  intros A c L. rewrite forallb_forall in A. apply A.
  unfold range. apply in_map_iff. exists (N.to_nat c). split.
  - lia.
  - apply in_seq. change (N.to_nat (127 - 0)) with 127%nat. lia.
Qed.

Lemma is_hex_not_space c : is_hex c = true -> isWhiteSpace c = false.
Proof.
  intros H.
  assert (L : (c < 128)%N)
    by (apply (cls_match_ascii hex_class c); [now vm_compute | exact H]).
  apply negb_true_iff.
  cut (implb (is_hex c) (negb (isWhiteSpace c)) = true).
  - rewrite H. auto.
  - apply (below_128 (fun x => implb (is_hex x) (negb (isWhiteSpace x))));
      [now vm_compute | exact L].
Qed.

Lemma is_label_char_not_dot c :
  is_label_char c = true -> (c =? dot)%N = false.
Proof.
  intros H. apply N.eqb_neq. intros ->. now vm_compute in H.
Qed.

Lemma str_eqb_eq a b : str_eqb a b = true <-> a = b.
Proof.
  unfold str_eqb. destruct (list_eq_dec N.eq_dec a b); split; auto.
  discriminate.
Qed.

(** ** Labels and dots *)

Lemma is_label_no_dot l : is_label l = true -> no_dot l = true.
Proof.
  unfold is_label, no_dot. intros H. apply andb_true_iff in H as [_ H].
  rewrite forallb_forall in *. intros c I.
  now rewrite (is_label_char_not_dot _ (H c I)).
Qed.

Lemma eq_icase_label l w :
  is_label w = true -> eq_icase l w = true -> is_label l = true.
Proof.
  unfold eq_icase. rewrite str_eqb_eq. revert w.
  assert (G : forall w, forallb is_label_char w = true ->
                        map canonicalize l = map canonicalize w ->
                        forallb is_label_char l = true).
  { induction l as [|c l IH]; intros [|a w] F E; try discriminate; auto.
    simpl in *. injection E as Ec E. apply andb_true_iff in F as [Fa F].
    unfold is_label_char at 1. rewrite (cls_match_canon _ _ _ Ec).
    fold (is_label_char a). rewrite Fa. simpl. eapply IH; eauto. }
  intros w L E. unfold is_label in *. apply andb_true_iff in L as [N F].
  rewrite (G w F E), andb_true_r.
  destruct l; destruct w; try discriminate; auto.
Qed.

Lemma is_network_suffix_label l :
  is_network_suffix l = true -> is_label l = true.
Proof.
  unfold is_network_suffix. intros H.
  apply orb_true_iff in H as [H|H];
    eapply eq_icase_label; try exact H; now vm_compute.
Qed.

Lemma split_on_cons d s : exists h r, split_on d s = h :: r.
Proof.
  induction s as [|c s (h & r & E)]; simpl; eauto.
  destruct (c =? d)%N; eauto. rewrite E. eauto.
Qed.

Lemma split_on_no_dot l : no_dot l = true -> split_on dot l = [l].
Proof.
  unfold no_dot. induction l as [|c l IH]; simpl; auto.
  intros H. apply andb_true_iff in H as [Hc H].
  apply negb_true_iff in Hc. rewrite Hc, (IH H). auto.
Qed.

Lemma split_on_label l rest :
  no_dot l = true ->
  split_on dot (l ++ dot :: rest) = l :: split_on dot rest.
Proof.
  unfold no_dot. induction l as [|c l IH]; simpl.
  - intros _. reflexivity.
  - intros H. apply andb_true_iff in H as [Hc H].
    apply negb_true_iff in Hc. rewrite Hc, (IH H). auto.
Qed.

Lemma split_on_labels mids : forall l suf,
  no_dot l = true -> forallb no_dot mids = true -> no_dot suf = true ->
  split_on dot (l ++ concat (map (cons dot) mids) ++ dot :: suf)
  = l :: mids ++ [suf].
Proof.
  induction mids as [|m mids IH]; intros l suf Hl Hm Hs; simpl.
  - now rewrite split_on_label, split_on_no_dot.
  - simpl in Hm. apply andb_true_iff in Hm as [Hm1 Hm].
    rewrite <- app_assoc. rewrite split_on_label by auto.
    f_equal. now apply IH.
Qed.

Lemma join_split s : join_dots (split_on dot s) = s.
Proof.
  induction s as [|c s IH]; simpl; auto.
  destruct (split_on_cons dot s) as (h & r & E). rewrite E in *.
  simpl in IH. destruct (c =? dot)%N eqn:D; simpl.
  - apply N.eqb_eq in D. subst c. now rewrite IH.
  - now rewrite IH.
Qed.

(** ** The three patterns and the three shapes *)

Lemma implicit_shape s :
  test IMPLICIT_ADDRESS_REGEX s = shape_implicit s.
Proof.
  apply eq_true_iff_eq. rewrite test_matches.
  unfold IMPLICIT_ADDRESS_REGEX, shape_implicit.
  rewrite matches_rep_cls, andb_true_iff, Nat.eqb_eq. reflexivity.
Qed.

Lemma ethereum_shape s :
  test ETHEREUM_LIKE_REGEX s = shape_ethereum s.
Proof.
  apply eq_true_iff_eq. rewrite test_matches.
  unfold ETHEREUM_LIKE_REGEX. rewrite matches_cat. split.
  - intros (s1 & s2 & -> & H1 & H2).
    apply matches_word in H1. apply matches_rep_cls in H2 as [L F].
    destruct s1 as [|z [|x [|y s1]]]; try discriminate.
    change (lit "0x") with [ch "0"; ch "x"] in H1.
    simpl in H1. injection H1 as Hz Hx.
    change (canonicalize (ch "0")) with (ch "0") in Hz.
    apply (proj1 (canonicalize_zero z)) in Hz. subst z.
    simpl. change (forallb is_hex s2) with (forallb (cls_match hex_class) s2).
    rewrite Hx, L, F, !N.eqb_refl. auto.
  - unfold shape_ethereum. destruct s as [|z [|x h]]; try discriminate.
    rewrite !andb_true_iff, !N.eqb_eq, Nat.eqb_eq.
    intros [[[Hz Hx] L] F]. subst z.
    exists [ch "0"; x], h. repeat split.
    + apply matches_word. change (lit "0x") with [ch "0"; ch "x"].
      simpl. now rewrite Hx.
    + apply matches_rep_cls. auto.
Qed.

Lemma matches_label l :
  matches (Plus (Cls label_class)) l <-> is_label l = true.
Proof.
  rewrite matches_plus_cls. unfold is_label, is_label_char.
  rewrite andb_true_iff. destruct l; simpl; split; intros [A B]; split;
    auto; discriminate.
Qed.

Lemma matches_dot s : matches (Chr dot) s <-> s = [dot].
Proof.
  unfold Chr. rewrite matches_cls. split.
  - intros (c & -> & H). unfold cls_match in H. cbn [existsb] in H.
    rewrite orb_false_r in H. apply N.eqb_eq in H.
    symmetry in H. now rewrite (canonicalize_dot _ H).
  - intros ->. exists dot. split; auto.
Qed.

Lemma matches_middle s :
  matches (Star (Cat (Chr dot) (Plus (Cls label_class)))) s <->
  exists mids,
    s = concat (map (cons dot) mids) /\ forallb is_label mids = true.
Proof.
  split.
  - intros H.
    remember (Star (Cat (Chr dot) (Plus (Cls label_class)))) as r eqn:E.
    induction H; try discriminate.
    + exists []. auto.
    + injection E as ->.
      destruct (IHmatches2 eq_refl) as (mids & -> & F).
      apply matches_cat in H as (d & l & -> & Hd & Hl).
      apply matches_dot in Hd. subst d. apply matches_label in Hl.
      exists (l :: mids). simpl. now rewrite Hl, F.
  - intros (mids & -> & F). induction mids as [|m mids IH]; simpl.
    + constructor.
    + simpl in F. apply andb_true_iff in F as [Fm F].
      change (dot :: m ++ concat (map (cons dot) mids))
        with ((dot :: m) ++ concat (map (cons dot) mids)).
      constructor; auto.
      change (dot :: m) with ([dot] ++ m).
      constructor; [now apply matches_dot | now apply matches_label].
Qed.

Lemma matches_suffix s :
  matches (Alt (Word (lit "near")) (Word (lit "testnet"))) s <->
  is_network_suffix s = true.
Proof.
  unfold is_network_suffix, eq_icase.
  rewrite matches_alt, orb_true_iff, !str_eqb_eq, !matches_word.
  reflexivity.
Qed.

Lemma named_labels s :
  matches NAMED_ADDRESS_REGEX s <->
  exists l0 mids suf,
    s = l0 ++ concat (map (cons dot) mids) ++ dot :: suf /\
    is_label l0 = true /\ forallb is_label mids = true /\
    is_network_suffix suf = true.
Proof.
  unfold NAMED_ADDRESS_REGEX. split.
  - intros H.
    apply matches_cat in H as (l0 & t1 & -> & H0 & H).
    apply matches_cat in H as (m & t2 & -> & Hm & H).
    apply matches_cat in H as (d & suf & -> & Hd & Hs).
    apply matches_label in H0. apply matches_middle in Hm as (mids & -> & F).
    apply matches_dot in Hd. subst d. apply matches_suffix in Hs.
    exists l0, mids, suf. auto.
  - intros (l0 & mids & suf & -> & H0 & F & Hs).
    constructor; [now apply matches_label|].
    constructor; [apply matches_middle; eauto|].
    change (dot :: suf) with ([dot] ++ suf).
    constructor; [now apply matches_dot | now apply matches_suffix].
Qed.

Lemma forallb_no_dot mids :
  forallb is_label mids = true -> forallb no_dot mids = true.
Proof.
  rewrite !forallb_forall. intros H l I. apply is_label_no_dot; auto.
Qed.

Lemma named_shape s :
  test NAMED_ADDRESS_REGEX s = shape_named 2 s.
Proof.
  apply eq_true_iff_eq. rewrite test_matches, named_labels.
  unfold shape_named. split.
  - intros (l0 & mids & suf & -> & H0 & F & Hs).
    pose proof (is_network_suffix_label _ Hs) as Ls.
    rewrite split_on_labels;
      auto using is_label_no_dot, forallb_no_dot.
    rewrite !andb_true_iff. repeat split.
    + apply Nat.leb_le. simpl. rewrite length_app. simpl. lia.
    + simpl. rewrite H0, forallb_app, F. simpl. now rewrite Ls.
    + change (l0 :: mids ++ [suf]) with ((l0 :: mids) ++ [suf]).
      now rewrite last_last.
  - rewrite !andb_true_iff, Nat.leb_le. intros [[L F] Hs].
    pose proof (join_split s) as J.
    destruct (split_on dot s) as [|l0 rest]; [simpl in L; lia|].
    destruct (@exists_last _ rest) as (mids & suf & ->).
    { intros ->. simpl in L. lia. }
    change (l0 :: mids ++ [suf]) with ((l0 :: mids) ++ [suf]) in Hs.
    rewrite last_last in Hs.
    simpl in F. rewrite forallb_app in F.
    apply andb_true_iff in F as [F0 F]. apply andb_true_iff in F as [Fm _].
    exists l0, mids, suf. repeat split; auto.
    rewrite <- J. simpl. rewrite map_app, concat_app. simpl.
    now rewrite List.app_nil_r.
Qed.

(** ** Trimming *)

Lemma trim_clean s :
  forallb (fun c => negb (isWhiteSpace c)) s = true -> trim s = s.
Proof.
  assert (D : forall t, forallb (fun c => negb (isWhiteSpace c)) t = true ->
                        dropWhile isWhiteSpace t = t).
  { intros [|c t]; simpl; auto. intros H.
    apply andb_true_iff in H as [H _]. apply negb_true_iff in H.
    now rewrite H. }
  intros H. unfold trim. rewrite (D s H), D, rev_involutive; auto.
  rewrite forallb_forall in *. intros c I. apply H. now apply in_rev.
Qed.

(** ** The validator *)

Lemma validateAccountId_trimmed raw :
  validateAccountId raw =
  if is_empty (trim raw) then Some MSG_ENTER_ID
  else if accepts (trim raw) then None else Some MSG_INVALID_ID.
Proof.
  unfold validateAccountId, accepts.
  rewrite implicit_shape, named_shape, ethereum_shape.
  destruct (is_empty (trim raw)); auto.
  destruct (shape_implicit (trim raw)); auto.
  destruct (shape_named 2 (trim raw)); auto.
Qed.

Lemma hex_word_clean h :
  forallb is_hex h = true ->
  trim (lit "0x" ++ h) = lit "0x" ++ h /\
  split_on dot (lit "0x" ++ h) = [lit "0x" ++ h].
Proof.
  intros H. rewrite forallb_forall in H. split.
  - apply trim_clean. rewrite forallb_app. apply andb_true_iff. split.
    + now vm_compute.
    + apply forallb_forall. intros c I.
      now rewrite (is_hex_not_space _ (H c I)).
  - apply split_on_no_dot. unfold no_dot. rewrite forallb_app.
    apply andb_true_iff. split.
    + now vm_compute.
    + apply forallb_forall. intros c I. apply negb_true_iff.
      apply N.eqb_neq. intros ->. specialize (H _ I). now vm_compute in H.
Qed.

Lemma hex_word_accepts h :
  forallb is_hex h = true ->
  accepts (lit "0x" ++ h) = (length h =? 40)%nat.
Proof.
  intros H. destruct (hex_word_clean h H) as [_ S].
  assert (I : shape_implicit (lit "0x" ++ h) = false).
  { change (lit "0x" ++ h) with (ch "0" :: ch "x" :: h).
    unfold shape_implicit. cbn [forallb].
    change (is_hex (ch "x")) with false.
    apply andb_false_iff. right. apply andb_false_iff. right.
    reflexivity. }
  assert (N : shape_named 2 (lit "0x" ++ h) = false).
  { unfold shape_named. rewrite S. reflexivity. }
  unfold accepts. rewrite I, N.
  change (lit "0x" ++ h) with (ch "0" :: ch "x" :: h).
  cbn [shape_ethereum orb]. rewrite H, !N.eqb_refl.
  now rewrite andb_true_r.
Qed.

(** C3, as the claim words it: with "one or more" labels the word [near]
    alone has the named shape, and the validator rejects it. *)
Lemma validateAccountId_single_label_counterexample :
  ~ (validateAccountId (lit "near") = None <->
     spec_accepts (trim (lit "near")) = true).
Proof.
  intros [_ H].
  assert (A : spec_accepts (trim (lit "near")) = true) by now vm_compute.
  specialize (H A). now vm_compute in H.
Qed.

(** C3 (amended): the validator trims the input and accepts it exactly when
    the trimmed string has, up to the case of letters, one of three
    shapes: 64 hexadecimal characters; two or more dot-separated labels of
    letters, digits, hyphens and underscores, the final one [near] or
    [testnet]; or [0x] and 40 hexadecimal characters.  An empty trimmed
    string gets the please-enter message, every other rejected string the
    message that lists the shapes; [0x] with 40 hexadecimal characters is
    accepted, with 39 or 41 it is rejected. *)
Theorem validateAccountId_shapes :
  (forall raw,
      validateAccountId raw = None <-> accepts (trim raw) = true) /\
  (forall raw, trim raw = [] -> validateAccountId raw = Some MSG_ENTER_ID) /\
  (forall raw,
      trim raw <> [] -> accepts (trim raw) = false ->
      validateAccountId raw = Some MSG_INVALID_ID) /\
  (forall h,
      forallb is_hex h = true ->
      (length h = 40%nat -> validateAccountId (lit "0x" ++ h) = None) /\
      (length h = 39%nat \/ length h = 41%nat ->
       validateAccountId (lit "0x" ++ h) = Some MSG_INVALID_ID)).
Proof.
  repeat split.
  - rewrite validateAccountId_trimmed.
    destruct (is_empty (trim raw)); [discriminate|].
    destruct (accepts (trim raw)); auto; discriminate.
  - rewrite validateAccountId_trimmed. intros A.
    destruct (trim raw) as [|c t] eqn:E; [discriminate|].
    simpl. now rewrite A.
  - intros raw E. rewrite validateAccountId_trimmed, E. reflexivity.
  - intros raw N A. rewrite validateAccountId_trimmed, A.
    destruct (trim raw); [contradiction | reflexivity].
  - intros L. rewrite validateAccountId_trimmed.
    destruct (hex_word_clean h H) as [-> _].
    rewrite (hex_word_accepts h H), L. reflexivity.
  - intros L. rewrite validateAccountId_trimmed.
    destruct (hex_word_clean h H) as [-> _].
    rewrite (hex_word_accepts h H).
    destruct L as [-> | ->]; reflexivity.
Qed.

Lemma validateAccountId_shapes_witness :
  validateAccountId (lit " sub.account.TESTNET ") = None /\
  validateAccountId (lit "   ") = Some MSG_ENTER_ID /\
  validateAccountId (lit "not_a_valid_id!!") = Some MSG_INVALID_ID /\
  validateAccountId (lit "0x" ++ repeat (ch "A") 40) = None /\
  validateAccountId (lit "0x" ++ repeat (ch "b") 41) = Some MSG_INVALID_ID.
Proof.
  destruct validateAccountId_shapes as (V & E & I & X).
  split; [| split; [| split; [| split]]].
  - apply V. vm_compute. reflexivity.
  - apply E. vm_compute. reflexivity.
  - apply I; vm_compute; [discriminate | reflexivity].
  - apply (X (repeat (ch "A") 40)); vm_compute; reflexivity.
  - apply (X (repeat (ch "b") 41)); [vm_compute; reflexivity |].
    right. vm_compute. reflexivity.
Defined.

(** ** Decimal strings denote their integers *)

Section Amounts.
Local Open Scope Z_scope.

Lemma digits_value_acc u : forall acc,
  digits_value 10 (Z.pos acc) (uint_digits u)
  = Some (Z.pos (Pos.of_uint_acc u acc)).
Proof.
  induction u; intros acc;
    cbn [uint_digits digits_value Pos.of_uint_acc]; auto;
    match goal with
    | |- context [digit_value 10 ?c] =>
        let v := eval vm_compute in (digit_value 10 c) in
        change (digit_value 10 c) with v
    end;
    cbv iota beta; rewrite <- IHu; f_equal; lia.
Qed.

Lemma digits_value_uint u :
  digits_value 10 0 (uint_digits u) = Some (Z.of_N (Pos.of_uint u)).
Proof.
  induction u; cbn [uint_digits digits_value Pos.of_uint]; auto;
    match goal with
    | |- context [digit_value 10 ?c] =>
        let v := eval vm_compute in (digit_value 10 c) in
        change (digit_value 10 c) with v
    end;
    cbv iota beta; try exact IHu;
    cbn [Z.mul Z.add Z.of_N]; apply digits_value_acc.
Qed.

Lemma uint_digits_digits u : forallb is_digit (uint_digits u) = true.
Proof. induction u; simpl; auto. Qed.

Lemma uint_digits_nonnil u : u <> Decimal.Nil -> uint_digits u <> [].
Proof. destruct u; simpl; intros H; try discriminate. contradiction. Qed.

Lemma is_digit_facts c :
  is_digit c = true ->
  isWhiteSpace c = false /\ (c =? ch "-")%N = false /\
  (c =? ch "+")%N = false /\ (canonicalize c =? ch "X")%N = false /\
  (canonicalize c =? ch "O")%N = false /\
  (canonicalize c =? ch "B")%N = false.
Proof.
  intros H.
  assert (L : (c < 128)%N).
  { unfold is_digit, in_range in H. apply andb_true_iff in H as [_ H].
    apply N.leb_le in H. change (ch "9") with 57%N in H. lia. }
  pose (P := fun x =>
    implb (is_digit x)
      (negb (isWhiteSpace x) && negb (x =? ch "-")%N
       && negb (x =? ch "+")%N && negb (canonicalize x =? ch "X")%N
       && negb (canonicalize x =? ch "O")%N
       && negb (canonicalize x =? ch "B")%N)).
  assert (A : P c = true) by (apply below_128; [now vm_compute | exact L]).
  unfold P in A. rewrite H in A. simpl in A.
  rewrite !andb_true_iff, !negb_true_iff in A. tauto.
Qed.

Lemma BigInt_digits s :
  s <> [] -> forallb is_digit s = true ->
  BigInt s = digits_value 10 0 s.
Proof.
  intros N D. unfold BigInt. rewrite trim_clean.
  - destruct s as [|c r]; [contradiction|].
    simpl in D. apply andb_true_iff in D as [Dc Dr].
    destruct (is_digit_facts c Dc) as (_ & -> & -> & _).
    assert (R : radix_prefix (c :: r) = None).
    { unfold radix_prefix. destruct r as [|q body]; auto.
      simpl in Dr. apply andb_true_iff in Dr as [Dq _].
      destruct (is_digit_facts q Dq) as (_ & _ & _ & -> & -> & ->).
      now destruct (c =? ch "0")%N. }
    rewrite R. reflexivity.
  - rewrite forallb_forall in *. intros c I.
    destruct (is_digit_facts c (D c I)) as (-> & _). reflexivity.
Qed.

(** [BigInt] reads back what [toString] wrote, whatever the size. *)
Lemma BigInt_toString z : 0 <= z -> BigInt (toString z) = Some z.
Proof.
  intros Hz. destruct z as [|p|p]; [reflexivity | | lia].
  unfold toString. cbn [Z.to_int].
  rewrite BigInt_digits.
  - rewrite digits_value_uint, Unsigned.of_to. reflexivity.
  - apply uint_digits_nonnil, Unsigned.to_uint_nonnil.
  - apply uint_digits_digits.
Qed.

Lemma formatNearAmount_defined z n :
  0 <= z -> exists f, formatNearAmount (toString z) n = Some f.
Proof.
  intros Hz. unfold formatNearAmount. rewrite (BigInt_toString z Hz).
  eauto.
Qed.

(** ** The balance record *)

(** C1: for raw amounts [a] and [s] that are not negative, the total is
    the exact sum [a + s] of the two integers in the smallest unit, of
    any size; it is this sum, written out in full, that is handed to the
    formatter for the total of the record. *)
Theorem total_is_exact_sum (a s : Z) :
  0 <= a -> 0 <= s ->
  totalYocto (toString a) (toString s) = Some (a + s) /\
  BigInt (toString (a + s)) = Some (a + s) /\
  exists r,
    balanceRecord (toString a) (toString s) = Some r /\
    formatNearAmount (toString (a + s)) 4 = Some (total r).
Proof.
  intros Ha Hs.
  assert (T : totalYocto (toString a) (toString s) = Some (a + s)).
  { unfold totalYocto. now rewrite !BigInt_toString. }
  split; [exact T|]. split; [apply BigInt_toString; lia|].
  unfold balanceRecord. rewrite T.
  destruct (formatNearAmount_defined a 4 Ha) as [fa ->].
  destruct (formatNearAmount_defined s 4 Hs) as [fs ->].
  destruct (formatNearAmount_defined (a + s) 4) as [ft ->]; [lia|].
  eexists. split; reflexivity.
Qed.

Lemma total_is_exact_sum_witness :
  2 ^ 63 < 2 ^ 63 + (2 ^ 63 + 1) /\
  totalYocto (toString (2 ^ 63)) (toString (2 ^ 63 + 1))
  = Some 18446744073709551617 /\
  BigInt (toString (2 ^ 63 + (2 ^ 63 + 1))) = Some 18446744073709551617.
Proof.
  split; [reflexivity|].
  destruct (total_is_exact_sum (2 ^ 63) (2 ^ 63 + 1)) as (T & B & _);
    [vm_compute; discriminate | vm_compute; discriminate |].
  split; [exact T | exact B].
Defined.

(** C2, as the claim words it: the record is not the one with four
    fractional digits everywhere. *)
Lemma balanceRecord_fixed_digits_counterexample :
  balanceRecord (lit "1000000000000000000000000")
                (lit "500000000000000000000000")
  <> Some {| available := lit "1.0000"; staked := lit "0.5000";
             total := lit "1.5000" |}.
Proof. vm_compute. discriminate. Qed.

(** C2 (amended): for [alice.near] with 1000000000000000000000000
    available and 500000000000000000000000 staked the record is
    available 1, staked 0.5, total 1.5: the amounts are rounded to four
    fractional digits and the trailing zeros, with a bare decimal point,
    are removed.  The page shows this record once both sub-queries have
    answered. *)
Theorem balanceRecord_alice :
  balanceRecord (lit "1000000000000000000000000")
                (lit "500000000000000000000000")
  = Some {| available := lit "1"; staked := lit "0.5"; total := lit "1.5" |}
  /\
  option_map ui
    (run alice_typed
       [Submit; ConnectDone 0 (Resolve tt); AccountDone 0 (Resolve tt);
        LiquidDone 0 (Resolve (lit "1000000000000000000000000"));
        StakedDone 0 (Resolve (lit "500000000000000000000000"))])
  = Some {| accountId := lit "alice.near";
            balanceData :=
              Some {| available := lit "1"; staked := lit "0.5";
                      total := lit "1.5" |};
            fetchedAccountId := Some (lit "alice.near");
            loading := false;
            error := None |}.
Proof. split; vm_compute; reflexivity. Qed.

End Amounts.

(** ** The classifier *)

Lemma errorMessage_exceeded id e :
  type_is e (lit "AccountDoesNotExist") = false ->
  message_includes e (lit "Exceeded") = true ->
  errorMessage id e = MSG_PROVIDERS.
Proof.
  intros T I. unfold errorMessage.
  assert (M : message_is e TIMEOUT_REJECTION = false).
  { unfold message_is, message_includes in *.
    destruct (message e) as [m|]; auto.
    destruct (str_eqb m TIMEOUT_REJECTION) eqn:E; auto.
    apply str_eqb_eq in E. subst m. now vm_compute in I. }
  rewrite M, T, I, orb_true_r. reflexivity.
Qed.

Lemma includes_app s t w :
  includes t w = true -> includes (s ++ t) w = true.
Proof.
  induction s as [|c s IH]; simpl; auto.
  intros H. rewrite (IH H). apply orb_true_r.
Qed.

Lemma startsWith_app p q s :
  startsWith (p ++ q) s = true -> startsWith p s = true.
Proof.
  revert s. induction p as [|a p IH]; intros [|b s]; simpl; auto.
  intros H. apply andb_true_iff in H as [-> H]. simpl. eauto.
Qed.

Lemma includes_prefix s p q :
  includes s (p ++ q) = true -> includes s p = true.
Proof.
  induction s as [|c s IH]; simpl; intros H.
  - rewrite orb_false_r in *. eapply startsWith_app; eauto.
  - apply orb_true_iff in H as [H|H].
    + rewrite (startsWith_app _ _ _ H). reflexivity.
    + rewrite (IH H). apply orb_true_r.
Qed.

(** C6, as the claim words it: the message for exhausted providers is not
    the quoted one; the source names the network in it. *)
Lemma errorMessage_providers_counterexample :
  errorMessage (lit "alice.near")
    {| message := Some (lit "Exceeded 3 providers to execute request");
       type := Some (lit "RetriesExceeded") |}
  <> lit "All RPC providers failed. The network may be experiencing issues. Please try again later.".
Proof. vm_compute. discriminate. Qed.

(** C6 (amended): a failure of type AccountDoesNotExist (that is not the
    rejection of the timer) gets the message [Account "<identifier>" does
    not exist on NEAR mainnet.] with the submitted identifier; a failure
    whose message reports the exhausted providers gets "All RPC providers
    failed. The NEAR network may be experiencing issues. Please try again
    later."; and every failure gets one of the six messages, the last one
    being the fallback. *)
Theorem errorMessage_classes (id : jsstring) (e : ErrorWithType) :
  (message_is e TIMEOUT_REJECTION = false ->
   type_is e (lit "AccountDoesNotExist") = true ->
   errorMessage id e
   = lit "Account " ++ quote :: id
       ++ quote :: lit " does not exist on NEAR mainnet.") /\
  (type_is e (lit "AccountDoesNotExist") = false ->
   message_includes e (lit "Exceeded 3 providers") = true ->
   errorMessage id e
   = lit "All RPC providers failed. The NEAR network may be experiencing issues. Please try again later.") /\
  (errorMessage id e = MSG_TIMEOUT \/
   errorMessage id e = MSG_NOT_FOUND id \/
   errorMessage id e = MSG_PROVIDERS \/
   errorMessage id e = MSG_NETWORK \/
   (exists m, message e = Some m /\ m <> [] /\
              errorMessage id e = lit "Error: " ++ m) \/
   errorMessage id e = MSG_GENERIC).
Proof.
  split; [| split].
  - intros M T. unfold errorMessage. rewrite M, T. reflexivity.
  - intros T I. apply errorMessage_exceeded; auto.
    unfold message_includes in *. destruct (message e) as [m|]; auto.
    apply (includes_prefix m (lit "Exceeded") (lit " 3 providers")).
    exact I.
  - unfold errorMessage.
    destruct (message_is e TIMEOUT_REJECTION); auto.
    destruct (type_is e (lit "AccountDoesNotExist")); auto.
    destruct (message_includes e (lit "Exceeded 3 providers")
              || message_includes e (lit "Exceeded")); auto.
    destruct (message_includes e (lit "network")
              || message_includes e (lit "fetch")); auto 6.
    destruct (message e) as [[|c m]|] eqn:E; simpl; auto 7.
    right. right. right. right. left. exists (c :: m).
    repeat split; auto. discriminate.
Qed.

Lemma errorMessage_classes_witness :
  errorMessage (lit "bob.near")
    {| message := Some (lit "account bob.near does not exist while viewing");
       type := Some (lit "AccountDoesNotExist") |}
  = lit "Account " ++ quote :: lit "bob.near"
      ++ quote :: lit " does not exist on NEAR mainnet.".
Proof.
  apply (errorMessage_classes (lit "bob.near")
           {| message := Some (lit "account bob.near does not exist while viewing");
              type := Some (lit "AccountDoesNotExist") |});
    vm_compute; reflexivity.
Defined.

(** C10: a failure that is not of type AccountDoesNotExist, whose message
    is not the rejection of the timer and holds [Exceeded] anywhere, gets
    the message for exhausted providers, whatever the failure was. *)
Theorem errorMessage_exceeded_anywhere (id : jsstring) (e : ErrorWithType) :
  type_is e (lit "AccountDoesNotExist") = false ->
  message_is e TIMEOUT_REJECTION = false ->
  message_includes e (lit "Exceeded") = true ->
  errorMessage id e = MSG_PROVIDERS.
Proof. intros T _ I. now apply errorMessage_exceeded. Qed.

Lemma errorMessage_exceeded_anywhere_witness :
  errorMessage (lit "alice.near")
    {| message := Some (lit "Rate limit Exceeded for this key");
       type := None |}
  = MSG_PROVIDERS.
Proof.
  apply errorMessage_exceeded_anywhere; vm_compute; reflexivity.
Defined.

(** ** Steps of the event loop *)

Lemma nth_error_update_same i f : forall l r,
  nth_error l i = Some r -> nth_error (update i f l) i = Some (f r).
Proof.
  induction i as [|i IH]; intros [|x l] r H; simpl in *; try discriminate.
  - now injection H as ->.
  - now apply IH.
Qed.

Lemma nth_error_update_other i f : forall l j,
  i <> j -> nth_error (update i f l) j = nth_error l j.
Proof.
  induction i as [|i IH]; intros [|x l] [|j] H; simpl; auto;
    try congruence.
Qed.

Lemma length_update i f : forall l, length (update i f l) = length l.
Proof.
  induction i as [|i IH]; intros [|x l]; simpl; auto.
Qed.

Lemma nth_error_update i f l j r :
  nth_error l j = Some r ->
  nth_error (update i f l) j = Some (if Nat.eqb i j then f r else r).
Proof.
  intros H. destruct (Nat.eqb_spec i j) as [->|N].
  - now apply nth_error_update_same.
  - now rewrite nth_error_update_other.
Qed.

Lemma abort_current_request st j r :
  nth_error (requests st) j = Some r ->
  exists r',
    nth_error (abort_current st) j = Some r' /\
    (r' = r \/ (r' = abort r /\ abortControllerRef st = Some j)).
Proof.
  intros H. unfold abort_current.
  destruct (abortControllerRef st) as [i|]; eauto.
  rewrite (nth_error_update i abort _ _ _ H).
  destruct (Nat.eqb_spec i j) as [->|N]; eauto.
Qed.

Lemma length_abort_current st :
  length (abort_current st) = length (requests st).
Proof.
  unfold abort_current. destruct (abortControllerRef st); auto.
  apply length_update.
Qed.

(** What a step does to the requests and to the page. *)
Lemma step_cases st e st' :
  step st e = Some st' ->
  (request_of e = None /\
   ((requests st' = requests st /\
     abortControllerRef st' = abortControllerRef st) \/
    (e = Unmount /\ requests st' = abort_current st /\
     abortControllerRef st' = abortControllerRef st /\ ui st' = ui st) \/
    (e = Submit /\ validateAccountId (accountId (ui st)) = None /\
     exists fresh,
       requests st' = abort_current st ++ [fresh] /\
       abortControllerRef st' = Some (length (abort_current st)) /\
       aborted fresh = false /\ handler fresh = Racing /\
       timeoutId fresh = Pending (clock st + REQUEST_TIMEOUT)))) \/
  (exists i r r1,
     request_of e = Some i /\ nth_error (requests st) i = Some r /\
     requests st' = update i (fun _ => r1) (requests st) /\
     abortControllerRef st' = abortControllerRef st /\
     aborted r1 = aborted r /\
     ((handler r1 = handler r /\ ui st' = ui st /\
       (timeoutId r1 = timeoutId r \/ handler r = Returned)) \/
      (handler r = Racing /\ handler r1 = Returned /\
       (forall d, timeoutId r1 <> Pending d) /\
       exists o, ui st' = after_race r o (ui st)))).
Proof.
  assert (F : forall i, fetch_event i e st = Some st' ->
                        request_of e = Some i ->
                        exists i r r1,
     request_of e = Some i /\ nth_error (requests st) i = Some r /\
     requests st' = update i (fun _ => r1) (requests st) /\
     abortControllerRef st' = abortControllerRef st /\
     aborted r1 = aborted r /\
     ((handler r1 = handler r /\ ui st' = ui st /\
       (timeoutId r1 = timeoutId r \/ handler r = Returned)) \/
      (handler r = Racing /\ handler r1 = Returned /\
       (forall d, timeoutId r1 <> Pending d) /\
       exists o, ui st' = after_race r o (ui st)))).
  { intros i H Q. unfold fetch_event in H.
    destruct (nth_error (requests st) i) as [r|] eqn:N; [|discriminate].
    destruct (resume r e) as [p|] eqn:R; [|discriminate].
    destruct (handler r) eqn:Hh; [destruct (settled p) as [o|] eqn:S|];
      injection H as <-.
    - exists i, r,
        (with_handler Returned
           (with_timer (clearTimeout (timeoutId (with_fetch p r)))
              (with_fetch p r))).
      repeat split; auto. right. repeat split; auto.
      + intros d. simpl. destruct (timeoutId r); discriminate.
      + exists o. reflexivity.
    - exists i, r, (with_fetch p r). repeat split; auto.
    - exists i, r, (with_fetch p r). repeat split; auto. }
  destruct e; simpl; intros H.
  - destruct (mounted st); [|discriminate]. injection H as <-.
    left. split; auto.
  - destruct (mounted st); [|discriminate]. injection H as <-.
    left. split; auto. unfold handleFetchBalance.
    destruct (validateAccountId (accountId (ui st))) eqn:V.
    + left. split; reflexivity.
    + right. right. repeat split.
      eexists. repeat split; reflexivity.
  - right. now apply (F i).
  - right. now apply (F i).
  - right. now apply (F i).
  - right. now apply (F i).
  - right. unfold timer_event in H.
    destruct (nth_error (requests st) i) as [r|] eqn:N; [|discriminate].
    destruct (timeoutId r) as [d| |] eqn:T; try discriminate.
    destruct (d <=? clock st)%N; [|discriminate].
    destruct (handler r) eqn:Hh; injection H as <-.
    + exists i, r, (with_handler Returned (with_timer Fired r)).
      repeat split; auto. right. repeat split; auto.
      * intros d'. simpl. discriminate.
      * exists (inr TIMEOUT_ERROR). reflexivity.
    + exists i, r, (with_timer Fired r). repeat split; auto.
  - injection H as <-. left. split; auto.
  - destruct (mounted st); [|discriminate]. injection H as <-.
    left. split; auto. right. left. repeat split.
Qed.

Lemma after_race_aborted r o u : aborted r = true -> after_race r o u = u.
Proof. unfold after_race. now intros ->. Qed.

Lemma nth_error_update_inv i f l j r' :
  nth_error (update i f l) j = Some r' ->
  exists r,
    nth_error l j = Some r /\ r' = if Nat.eqb i j then f r else r.
Proof.
  intros H. destruct (nth_error l j) as [r|] eqn:E.
  - rewrite (nth_error_update i f _ _ _ E) in H. injection H as <-. eauto.
  - apply nth_error_None in E. rewrite <- (length_update i f) in E.
    apply nth_error_None in E. congruence.
Qed.

Lemma abort_current_inv st j r' :
  nth_error (abort_current st) j = Some r' ->
  exists r,
    nth_error (requests st) j = Some r /\
    ((abortControllerRef st = Some j /\ r' = abort r) \/
     (abortControllerRef st <> Some j /\ r' = r)).
Proof.
  unfold abort_current. destruct (abortControllerRef st) as [i|].
  - intros H. apply nth_error_update_inv in H as (r & E & ->).
    exists r. split; auto.
    destruct (Nat.eqb_spec i j) as [->|N]; [left | right]; split; auto.
    congruence.
  - intros H. exists r'. split; auto. right. split; auto. discriminate.
Qed.

Lemma abort_current_all_aborted st :
  sole_controller st ->
  forall j r', nth_error (abort_current st) j = Some r' -> aborted r' = true.
Proof.
  intros I j r' H.
  apply abort_current_inv in H as (r & E & [[_ ->] | [N ->]]); auto.
  destruct (aborted r) eqn:A; auto. exfalso. apply N. now apply (I j r).
Qed.

Lemma sole_controller_step st e st' :
  sole_controller st -> step st e = Some st' -> sole_controller st'.
Proof.
  intros I H j r' E A.
  destruct (step_cases _ _ _ H)
    as [(_ & [(Q & R) | [(_ & Q & R & _) | (_ & _ & fresh & Q & R & F & _)]])
       | (i & r & r1 & _ & N & Q & R & B & _)];
    rewrite Q in E; rewrite R.
  - now apply (I j r').
  - apply (abort_current_all_aborted _ I) in E. congruence.
  - destruct (Nat.lt_ge_cases j (length (abort_current st))) as [L|L].
    + rewrite nth_error_app1 in E by exact L.
      apply (abort_current_all_aborted _ I) in E. congruence.
    + rewrite nth_error_app2 in E by exact L.
      destruct (j - length (abort_current st))%nat as [|k] eqn:D.
      * f_equal. lia.
      * simpl in E. destruct k; discriminate.
  - apply nth_error_update_inv in E as (r0 & E & ->).
    destruct (Nat.eqb_spec i j) as [->|D].
    + apply (I j r N). congruence.
    + now apply (I j r0).
Qed.

Lemma reachable_sole_controller st : reachable st -> sole_controller st.
Proof.
  induction 1 as [|st e st' _ IH H].
  - intros [|i] r E; discriminate.
  - eapply sole_controller_step; eauto.
Qed.

Lemma run_reachable es : forall st st',
  reachable st -> run st es = Some st' -> reachable st'.
Proof.
  induction es as [|e es IH]; simpl; intros st st' R H.
  - now injection H as <-.
  - destruct (step st e) as [st1|] eqn:E; [|discriminate].
    apply (IH st1 st'); auto. now apply (reach_step st e).
Qed.

(** A request stays aborted, a handler that has returned stays so, and
    the events of such a request leave the page as it is. *)
Lemma step_request st e st' j r :
  step st e = Some st' -> nth_error (requests st) j = Some r ->
  exists r',
    nth_error (requests st') j = Some r' /\
    (aborted r = true -> aborted r' = true) /\
    (handler r = Returned -> handler r' = Returned) /\
    (aborted r = true \/ handler r = Returned ->
     request_of e = Some j -> ui st' = ui st).
Proof.
  intros H E.
  destruct (step_cases _ _ _ H)
    as [(Z & [(Q & R) | [(_ & Q & R & _) | (_ & _ & fresh & Q & R & F & _)]])
       | (i & r0 & r1 & Z & N & Q & R & B & C)];
    rewrite Q.
  - exists r. repeat split; auto. congruence.
  - destruct (abort_current_request _ _ _ E) as (r' & E' & D).
    exists r'. split; [exact E'|].
    destruct D as [->|[-> _]]; repeat split; auto; congruence.
  - assert (L : (j < length (abort_current st))%nat).
    { rewrite length_abort_current. apply nth_error_Some. congruence. }
    rewrite nth_error_app1 by exact L.
    destruct (abort_current_request _ _ _ E) as (r' & E' & D).
    exists r'. split; [exact E'|].
    destruct D as [->|[-> _]]; repeat split; auto; congruence.
  - rewrite (nth_error_update i (fun _ => r1) _ _ _ E).
    destruct (Nat.eqb_spec i j) as [->|D].
    + assert (r0 = r) by congruence. subst r0. exists r1.
      destruct C as [(Hh & U & _) | (Hh & Hr & _ & o & U)].
      * repeat split; auto; congruence.
      * repeat split; auto; try congruence.
        intros [A|A] _; [|congruence].
        now rewrite U, after_race_aborted.
    + exists r. repeat split; auto. congruence.
Qed.

(** C4: in every state the page can reach at most one request is live; a
    valid submission leaves every prior request aborted when the new one
    starts; and once a request is aborted it stays aborted and none of its
    events, whether its fetch succeeds, fails or its timer fires, changes
    the state of the page. *)
Theorem supersession (st : State) :
  reachable st ->
  (forall i j ri rj,
      nth_error (requests st) i = Some ri ->
      nth_error (requests st) j = Some rj ->
      live ri = true -> live rj = true -> i = j) /\
  (forall st',
      validateAccountId (accountId (ui st)) = None ->
      step st Submit = Some st' ->
      (forall i r,
          (i < length (requests st))%nat ->
          nth_error (requests st') i = Some r -> aborted r = true) /\
      (exists fresh,
          nth_error (requests st') (length (requests st)) = Some fresh /\
          live fresh = true) /\
      length (requests st') = S (length (requests st))) /\
  (forall i r e st',
      nth_error (requests st) i = Some r -> aborted r = true ->
      step st e = Some st' ->
      (exists r', nth_error (requests st') i = Some r' /\ aborted r' = true) /\
      (request_of e = Some i ->
       balanceData (ui st') = balanceData (ui st) /\
       fetchedAccountId (ui st') = fetchedAccountId (ui st) /\
       error (ui st') = error (ui st) /\
       loading (ui st') = loading (ui st))).
Proof.
  intros R. pose proof (reachable_sole_controller _ R) as I.
  split; [| split].
  - intros i j ri rj Ei Ej Li Lj.
    assert (A : forall r, live r = true -> aborted r = false).
    { unfold live. intros r. destruct (handler r); [|discriminate].
      now destruct (aborted r). }
    pose proof (I _ _ Ei (A _ Li)) as Hi.
    pose proof (I _ _ Ej (A _ Lj)) as Hj. congruence.
  - intros st' V H. simpl in H.
    destruct (mounted st); [|discriminate]. injection H as <-.
    unfold handleFetchBalance. rewrite V. cbn [requests].
    pose proof (length_abort_current st) as L.
    split; [| split].
    + intros i r Hi E. rewrite nth_error_app1 in E by lia.
      now apply (abort_current_all_aborted _ I) in E.
    + rewrite <- L, nth_error_app2, Nat.sub_diag by lia.
      eexists. split; reflexivity.
    + rewrite length_app. simpl. lia.
  - intros i r e st' E A H.
    destruct (step_request _ _ _ _ _ H E) as (r' & E' & Ha & _ & U).
    split; [eauto|]. intros Q. now rewrite (U (or_introl A) Q).
Qed.

Lemma supersession_witness :
  (forall i j ri rj,
      nth_error
        (requests (after [Submit; ConnectDone 0 (Resolve tt); Submit])) i
      = Some ri ->
      nth_error
        (requests (after [Submit; ConnectDone 0 (Resolve tt); Submit])) j
      = Some rj ->
      live ri = true -> live rj = true -> i = j) /\
  map aborted (requests (after [Submit; ConnectDone 0 (Resolve tt); Submit]))
  = [true; false].
Proof.
  split; [| vm_compute; reflexivity].
  refine (proj1 (supersession _ _)).
  apply (run_reachable [Submit; ConnectDone 0 (Resolve tt); Submit]
           alice_typed).
  - apply (reach_step initial (InputChange (lit "alice.near")));
      [apply reach_initial | reflexivity].
  - vm_compute. reflexivity.
Defined.

(** A request whose handler waits for the race keeps its timer until an
    event of its own settles the race. *)
Lemma step_racing st e st' j r :
  step st e = Some st' -> nth_error (requests st) j = Some r ->
  handler r = Racing ->
  exists r',
    nth_error (requests st') j = Some r' /\
    ((handler r' = Racing /\ timeoutId r' = timeoutId r) \/
     (handler r' = Returned /\ (forall d, timeoutId r' <> Pending d) /\
      request_of e = Some j /\ exists o, ui st' = after_race r o (ui st))).
Proof.
  intros H E Hr.
  destruct (step_cases _ _ _ H)
    as [(Z & [(Q & R) | [(_ & Q & R & _) | (_ & _ & fresh & Q & R & F & _)]])
       | (i & r0 & r1 & Z & N & Q & R & B & C)];
    rewrite Q.
  - exists r. auto.
  - destruct (abort_current_request _ _ _ E) as (r' & E' & D).
    exists r'. split; [exact E'|]. destruct D as [->|[-> _]]; auto.
  - assert (L : (j < length (abort_current st))%nat).
    { rewrite length_abort_current. apply nth_error_Some. congruence. }
    rewrite nth_error_app1 by exact L.
    destruct (abort_current_request _ _ _ E) as (r' & E' & D).
    exists r'. split; [exact E'|]. destruct D as [->|[-> _]]; auto.
  - rewrite (nth_error_update i (fun _ => r1) _ _ _ E).
    destruct (Nat.eqb_spec i j) as [->|D]; [|exists r; auto].
    assert (r0 = r) by congruence. subst r0. exists r1. split; auto.
    destruct C as [(Hh & U & [T|T]) | (_ & Hh & T & o & U)].
    + left. split; congruence.
    + congruence.
    + right. repeat split; eauto.
Qed.

(** C5: the timer of a request is due 30000 ms after the submission and
    cannot fire before; when it fires on a live request the page shows
    "Request timed out. The network may be slow. Please try again.", stops
    loading and shows no balance; the handler has then returned, and
    whatever the fetch of that request does later, succeed or fail, leaves
    the page as it is. *)
Theorem timeout_message :
  (forall st st',
      validateAccountId (accountId (ui st)) = None ->
      step st Submit = Some st' ->
      exists fresh,
        nth_error (requests st') (length (requests st)) = Some fresh /\
        timeoutId fresh = Pending (clock st + 30000) /\
        live fresh = true) /\
  (forall st i r deadline,
      nth_error (requests st) i = Some r -> live r = true ->
      timeoutId r = Pending deadline ->
      ((clock st < deadline)%N -> step st (TimerFires i) = None) /\
      ((deadline <= clock st)%N ->
       exists st' r',
         step st (TimerFires i) = Some st' /\
         error (ui st')
         = Some (lit "Request timed out. The network may be slow. Please try again.") /\
         loading (ui st') = false /\
         balanceData (ui st') = balanceData (ui st) /\
         fetchedAccountId (ui st') = fetchedAccountId (ui st) /\
         nth_error (requests st') i = Some r' /\ handler r' = Returned)) /\
  (forall st i r e st',
      nth_error (requests st) i = Some r -> handler r = Returned ->
      step st e = Some st' ->
      (exists r', nth_error (requests st') i = Some r' /\
                  handler r' = Returned) /\
      (request_of e = Some i -> ui st' = ui st)).
Proof.
  split; [| split].
  - intros st st' V H. simpl in H.
    destruct (mounted st); [|discriminate]. injection H as <-.
    unfold handleFetchBalance. rewrite V. cbn [requests].
    rewrite <- (length_abort_current st), nth_error_app2, Nat.sub_diag
      by lia.
    eexists. repeat split.
  - intros st i r deadline E L T.
    assert (Hr : handler r = Racing /\ aborted r = false).
    { unfold live in L. destruct (handler r); [|discriminate].
      now destruct (aborted r). }
    destruct Hr as [Hr A].
    split; intros C; simpl; unfold timer_event; rewrite E, T.
    + apply N.leb_gt in C. now rewrite C.
    + apply N.leb_le in C. rewrite C, Hr.
      eexists. eexists. split; [reflexivity|].
      unfold settle_race. cbn [ui requests with_ui with_requests].
      rewrite (nth_error_update_same i _ _ _ E).
      unfold after_race. cbn [aborted with_timer]. rewrite A.
      repeat split.
  - intros st i r e st' E Hr H.
    destruct (step_request _ _ _ _ _ H E) as (r' & E' & _ & Hh & U).
    split; [eauto|]. intros Q. apply U; auto.
Qed.

Lemma timeout_message_witness :
  option_map ui
    (run alice_typed
       [Submit; ConnectDone 0 (Resolve tt); Tick 30000; TimerFires 0])
  = Some {| accountId := lit "alice.near"; balanceData := None;
            fetchedAccountId := None; loading := false;
            error := Some MSG_TIMEOUT |} /\
  ui (after [Submit; ConnectDone 0 (Resolve tt); Tick 30000; TimerFires 0;
             AccountDone 0 (Resolve tt)])
  = ui (after [Submit; ConnectDone 0 (Resolve tt); Tick 30000; TimerFires 0]).
Proof.
  split; [vm_compute; reflexivity|].
  destruct timeout_message as (_ & _ & L).
  refine (proj2 (L (after [Submit; ConnectDone 0 (Resolve tt); Tick 30000;
                           TimerFires 0])
                   0%nat _ (AccountDone 0 (Resolve tt)) _ _ _ _) _);
    vm_compute; reflexivity.
Defined.

(** C7, as the claim words it: after the teardown the timer of the running
    request is still pending and its handler still waits. *)
Lemma teardown_timer_counterexample :
  ~ (forall st r,
        run alice_typed [Submit; Unmount] = Some st ->
        nth_error (requests st) 0 = Some r ->
        forall d, timeoutId r <> Pending d).
Proof.
  intros H.
  apply (H (after [Submit; Unmount])
           {| trimmedAccountId := lit "alice.near"; aborted := true;
              fetchPromise := AwaitConnect; timeoutId := Pending 30000;
              handler := Racing |}
           eq_refl eq_refl 30000%N).
  reflexivity.
Qed.

(** C7 (amended): tearing the component down while a request runs is a
    step that always succeeds; it aborts the controller of that request
    and changes nothing else.  The timer is not cleared by the teardown:
    it stays pending while the handler of the aborted request waits, and
    is cleared or spent when an event of that request settles the race,
    at its deadline at the latest, without any change of the page. *)
Theorem teardown :
  (forall st i r,
      mounted st = true -> abortControllerRef st = Some i ->
      nth_error (requests st) i = Some r ->
      exists st',
        step st Unmount = Some st' /\ ui st' = ui st /\
        nth_error (requests st') i
        = Some {| trimmedAccountId := trimmedAccountId r; aborted := true;
                  fetchPromise := fetchPromise r;
                  timeoutId := timeoutId r; handler := handler r |}) /\
  (forall st i r e st',
      nth_error (requests st) i = Some r -> aborted r = true ->
      handler r = Racing -> step st e = Some st' ->
      exists r',
        nth_error (requests st') i = Some r' /\ aborted r' = true /\
        ((handler r' = Racing /\ timeoutId r' = timeoutId r) \/
         (handler r' = Returned /\ (forall d, timeoutId r' <> Pending d) /\
          request_of e = Some i /\ ui st' = ui st))) /\
  (forall st i r deadline,
      nth_error (requests st) i = Some r -> aborted r = true ->
      handler r = Racing -> timeoutId r = Pending deadline ->
      (deadline <= clock st)%N ->
      exists st' r',
        step st (TimerFires i) = Some st' /\ ui st' = ui st /\
        nth_error (requests st') i = Some r' /\
        timeoutId r' = Fired /\ handler r' = Returned).
Proof.
  split; [| split].
  - intros st i r M Ref E. simpl. rewrite M. eexists.
    split; [reflexivity|]. split; [reflexivity|].
    cbn [requests]. unfold abort_current. rewrite Ref.
    now rewrite (nth_error_update_same i abort _ _ E).
  - intros st i r e st' E A Hr H.
    destruct (step_request _ _ _ _ _ H E) as (r1 & E1 & Ha & _).
    destruct (step_racing _ _ _ _ _ H E Hr) as (r' & E' & C).
    assert (r1 = r') by congruence. subst r1.
    exists r'. split; [exact E'|]. split; [auto|].
    destruct C as [C | (Hh & T & Q & o & U)]; [left; exact C | right].
    repeat split; auto. now rewrite U, after_race_aborted.
  - intros st i r deadline E A Hr T C.
    simpl. unfold timer_event. rewrite E, T.
    apply N.leb_le in C. rewrite C, Hr.
    eexists. eexists. split; [reflexivity|].
    unfold settle_race. cbn [ui requests with_ui with_requests].
    rewrite (nth_error_update_same i _ _ _ E).
    rewrite after_race_aborted by exact A. repeat split.
Qed.

Lemma teardown_witness :
  exists st',
    step (after [Submit]) Unmount = Some st' /\
    ui st' = ui (after [Submit]) /\
    nth_error (requests st') 0
    = Some {| trimmedAccountId := lit "alice.near"; aborted := true;
              fetchPromise := AwaitConnect; timeoutId := Pending 30000;
              handler := Racing |}.
Proof.
  destruct teardown as (T & _).
  apply (T (after [Submit]) 0%nat
           {| trimmedAccountId := lit "alice.near"; aborted := false;
              fetchPromise := AwaitConnect; timeoutId := Pending 30000;
              handler := Racing |});
    vm_compute; reflexivity.
Defined.

(** C8: submitting an input that fails validation sets the error to the
    message of the validator and changes nothing else: no request is made
    and none is aborted, and loading, balance and fetched identifier are
    as before. *)
Theorem invalid_submission (st : State) (msg : jsstring) :
  mounted st = true ->
  validateAccountId (accountId (ui st)) = Some msg ->
  step st Submit
  = Some {| ui := {| accountId := accountId (ui st);
                     balanceData := balanceData (ui st);
                     fetchedAccountId := fetchedAccountId (ui st);
                     loading := loading (ui st);
                     error := Some msg |};
            abortControllerRef := abortControllerRef st;
            requests := requests st;
            clock := clock st;
            mounted := mounted st |}.
Proof.
  intros M V. unfold step.
  replace (if mounted st then Some (handleFetchBalance st) else None)
    with (Some (handleFetchBalance st)) by now rewrite M.
  unfold handleFetchBalance. rewrite V. reflexivity.
Qed.

Lemma invalid_submission_witness :
  option_map requests
    (step (after [Submit; InputChange (lit "not_a_valid_id!!")]) Submit)
  = Some (requests (after [Submit])) /\
  option_map (fun st => error (ui st))
    (step (after [Submit; InputChange (lit "not_a_valid_id!!")]) Submit)
  = Some (Some MSG_INVALID_ID).
Proof.
  rewrite (invalid_submission
             (after [Submit; InputChange (lit "not_a_valid_id!!")])
             MSG_INVALID_ID);
    [split | |]; vm_compute; reflexivity.
Defined.

(** C9: the two sub-queries are awaited together and either may answer
    first; the record is made only by the answer that completes the pair,
    from both amounts; and a sub-query that fails while the pair is
    awaited fails the whole fetch with its own error, which is the one the
    page then classifies. *)
Theorem subqueries_join :
  (forall r i,
      fetchPromise r = AwaitAccount -> aborted r = false ->
      resume r (AccountDone i (Resolve tt)) = Some (AwaitAll None None)) /\
  (forall r i a s,
      fetchPromise r = AwaitAll None None ->
      resume r (LiquidDone i (Resolve a)) = Some (AwaitAll (Some a) None) /\
      resume r (StakedDone i (Resolve s)) = Some (AwaitAll None (Some s))) /\
  (forall r e result,
      resume r e = Some (Fulfilled result) ->
      exists a s,
        balanceRecord a s = Some result /\ aborted r = false /\
        ((fetchPromise r = AwaitAll None (Some s) /\
          exists i, e = LiquidDone i (Resolve a)) \/
         (fetchPromise r = AwaitAll (Some a) None /\
          exists i, e = StakedDone i (Resolve s)))) /\
  (forall r i a s result,
      aborted r = false -> balanceRecord a s = Some result ->
      (fetchPromise r = AwaitAll (Some a) None ->
       resume r (StakedDone i (Resolve s)) = Some (Fulfilled result)) /\
      (fetchPromise r = AwaitAll None (Some s) ->
       resume r (LiquidDone i (Resolve a)) = Some (Fulfilled result))) /\
  (forall r i err lq sq,
      (fetchPromise r = AwaitAll None sq ->
       resume r (LiquidDone i (Reject err)) = Some (Rejected err)) /\
      (fetchPromise r = AwaitAll lq None ->
       resume r (StakedDone i (Reject err)) = Some (Rejected err))) /\
  (forall st i r err lq sq,
      nth_error (requests st) i = Some r -> live r = true ->
      (fetchPromise r = AwaitAll None sq ->
       exists st',
         step st (LiquidDone i (Reject err)) = Some st' /\
         error (ui st') = Some (errorMessage (trimmedAccountId r) err) /\
         balanceData (ui st') = balanceData (ui st)) /\
      (fetchPromise r = AwaitAll lq None ->
       exists st',
         step st (StakedDone i (Reject err)) = Some st' /\
         error (ui st') = Some (errorMessage (trimmedAccountId r) err) /\
         balanceData (ui st') = balanceData (ui st))).
Proof.
  split; [| split; [| split; [| split; [| split]]]].
  - intros r i P A. unfold resume, checkpoint. now rewrite P, A.
  - intros r i a s P. unfold resume. rewrite P. split; reflexivity.
  - intros r e result H. unfold resume in H.
    destruct (fetchPromise r) as [| |lq sq|res|err0] eqn:P;
      [ | | destruct lq as [a|], sq as [s|] | | ];
      destruct e as [value| |i o|i o|i o|i o|i|dt|]; try discriminate;
      destruct o as [v|err]; try discriminate;
      unfold checkpoint, conversion in H;
      destruct (aborted r) eqn:A; try discriminate.
    + destruct (balanceRecord a v) eqn:B; [|discriminate].
      injection H as ->. exists a, v. repeat split; auto. right. eauto.
    + destruct (balanceRecord v s) eqn:B; [|discriminate].
      injection H as ->. exists v, s. repeat split; auto. left. eauto.
  - intros r i a s result A B. unfold resume, checkpoint, conversion.
    split; intros ->; now rewrite A, B.
  - intros r i err lq sq. unfold resume.
    split; intros ->; [now destruct sq | now destruct lq].
  - intros st i r err lq sq E L.
    assert (Hr : handler r = Racing /\ aborted r = false).
    { unfold live in L. destruct (handler r); [|discriminate].
      now destruct (aborted r). }
    destruct Hr as [Hr A].
    split; intros P; simpl; unfold fetch_event; rewrite E.
    + assert (R : resume r (LiquidDone i (Reject err)) = Some (Rejected err))
        by (unfold resume; rewrite P; now destruct sq).
      rewrite R, Hr. cbn [settled]. eexists. split; [reflexivity|].
      unfold settle_race, after_race. cbn. rewrite A. split; reflexivity.
    + assert (R : resume r (StakedDone i (Reject err)) = Some (Rejected err))
        by (unfold resume; rewrite P; now destruct lq).
      rewrite R, Hr. cbn [settled]. eexists. split; [reflexivity|].
      unfold settle_race, after_race. cbn. rewrite A. split; reflexivity.
Qed.

Lemma subqueries_join_witness :
  option_map (fun st => (error (ui st), balanceData (ui st)))
    (step (after [Submit; ConnectDone 0 (Resolve tt);
                  AccountDone 0 (Resolve tt);
                  LiquidDone 0 (Resolve (lit "1000000000000000000000000"))])
          (StakedDone 0
             (Reject {| message := Some (lit "validator view failed");
                        type := None |})))
  = Some (Some (lit "Error: validator view failed"), None).
Proof.
  destruct subqueries_join as (_ & _ & _ & _ & _ & J).
  destruct (J (after [Submit; ConnectDone 0 (Resolve tt);
                      AccountDone 0 (Resolve tt);
                      LiquidDone 0 (Resolve (lit "1000000000000000000000000"))])
              0%nat
              {| trimmedAccountId := lit "alice.near"; aborted := false;
                 fetchPromise :=
                   AwaitAll (Some (lit "1000000000000000000000000")) None;
                 timeoutId := Pending 30000; handler := Racing |}
              {| message := Some (lit "validator view failed");
                 type := None |}
              (Some (lit "1000000000000000000000000")) None
              eq_refl eq_refl) as (_ & S).
  destruct (S eq_refl) as (st' & -> & Er & Bd).
  cbn [option_map]. rewrite Er, Bd. vm_compute. reflexivity.
Defined.

(** * Further properties of the validator *)

Lemma dropWhile_idem p s : dropWhile p (dropWhile p s) = dropWhile p s.
Proof.
  induction s as [|c s IH]; simpl; auto.
  destruct (p c) eqn:E; auto. simpl. now rewrite E.
Qed.

Lemma dropWhile_head p s :
  match dropWhile p s with
  | [] => True
  | c :: _ => p c = false
  end.
Proof.
  induction s as [|c s IH]; simpl; auto.
  destruct (p c) eqn:E; auto.
Qed.

Lemma dropWhile_app_last p l c :
  p c = false -> exists l2, dropWhile p (l ++ [c]) = l2 ++ [c].
Proof.
  intros H. induction l as [|a l (l2 & IH)]; simpl.
  - rewrite H. now exists [].
  - destruct (p a); [eauto | now exists (a :: l)].
Qed.

Lemma trim_idem s : trim (trim s) = trim s.
Proof.
  unfold trim. set (x := dropWhile isWhiteSpace s).
  assert (Hy : dropWhile isWhiteSpace
                 (rev (dropWhile isWhiteSpace (rev x)))
               = rev (dropWhile isWhiteSpace (rev x))).
  { pose proof (dropWhile_head isWhiteSpace s) as Hx. fold x in Hx.
    destruct x as [|c x']; [reflexivity|]. simpl rev.
    destruct (dropWhile_app_last isWhiteSpace (rev x') c Hx) as (l2 & E).
    rewrite E, rev_app_distr. simpl. now rewrite Hx. }
  rewrite Hy, rev_involutive, dropWhile_idem. reflexivity.
Qed.

(** X1: the validator sees its input only through the trimmed string,
    and the trimmed string is what the handler uses as the identifier
    (line 107): an input is accepted exactly when its trimmed form is. *)
Theorem validateAccountId_trim (raw : jsstring) :
  validateAccountId (trim raw) = validateAccountId raw.
Proof. unfold validateAccountId. now rewrite trim_idem. Qed.

Lemma canonicalize_idem c : canonicalize (canonicalize c) = canonicalize c.
Proof.
  destruct (canonicalize_cases c) as [[R E]|[R E]]; rewrite E; auto.
  destruct (canonicalize_cases (c - 32)) as [[R' E']|[R' E']]; auto. lia.
Qed.

Lemma isWhiteSpace_canon c : isWhiteSpace (canonicalize c) = isWhiteSpace c.
Proof.
  destruct (canonicalize_cases c) as [[R E]|[R E]]; rewrite E; auto.
  pose (P := fun x =>
    implb (in_range 65%N 122%N x) (negb (isWhiteSpace x))).
  assert (A : forall x, (65 <= x <= 122)%N -> isWhiteSpace x = false).
  { intros x Hx.
    assert (Q : P x = true) by (apply below_128; [now vm_compute | lia]).
    unfold P, in_range in Q.
    destruct (N.leb_spec 65 x); [|lia]. destruct (N.leb_spec x 122); [|lia].
    simpl in Q. now apply negb_true_iff. }
  rewrite !A by lia. reflexivity.
Qed.

Lemma dropWhile_canon a : forall b,
  map canonicalize a = map canonicalize b ->
  map canonicalize (dropWhile isWhiteSpace a)
  = map canonicalize (dropWhile isWhiteSpace b).
Proof.
  induction a as [|c a IH]; intros [|c' b] H; try discriminate; auto.
  simpl in H. injection H as Hc H.
  assert (W : isWhiteSpace c = isWhiteSpace c')
    by now rewrite <- (isWhiteSpace_canon c), Hc, isWhiteSpace_canon.
  simpl. rewrite <- W. destruct (isWhiteSpace c); auto.
  simpl. now rewrite Hc, H.
Qed.

Lemma trim_canon a b :
  map canonicalize a = map canonicalize b ->
  map canonicalize (trim a) = map canonicalize (trim b).
Proof.
  intros H. unfold trim. rewrite !map_rev. f_equal.
  apply dropWhile_canon. rewrite !map_rev. f_equal.
  now apply dropWhile_canon.
Qed.

Lemma deriv_canon c c' r :
  canonicalize c = canonicalize c' -> deriv c r = deriv c' r.
Proof.
  intros H. induction r; simpl; auto.
  - now rewrite (cls_match_canon _ _ _ H).
  - now rewrite IHr1, IHr2.
  - now rewrite IHr1, IHr2.
  - now rewrite IHr.
Qed.

Lemma test_canon a : forall b r,
  map canonicalize a = map canonicalize b -> test r a = test r b.
Proof.
  induction a as [|c a IH]; intros [|c' b] r H; try discriminate; auto.
  simpl in H. injection H as Hc H.
  simpl. rewrite (deriv_canon _ _ _ Hc). now apply IH.
Qed.

(** X2: validation does not look at the case of ASCII letters: two inputs
    that are equal once their letters are upper-cased get the same
    verdict and the same message. *)
Theorem validateAccountId_ignores_case (a b : jsstring) :
  map canonicalize a = map canonicalize b ->
  validateAccountId a = validateAccountId b.
Proof.
  intros H. pose proof (trim_canon _ _ H) as T.
  unfold validateAccountId.
  rewrite !(test_canon _ _ _ T).
  destruct (trim a), (trim b); try discriminate; reflexivity.
Qed.

Lemma validateAccountId_ignores_case_witness :
  validateAccountId (lit " Alice.Sub-1.NEAR")
  = validateAccountId (lit " alice.sub-1.near").
Proof.
  apply validateAccountId_ignores_case. vm_compute. reflexivity.
Defined.

Lemma is_hex_label_char c : is_hex c = true -> is_label_char c = true.
Proof.
  intros H.
  assert (L : (c < 128)%N)
    by (apply (cls_match_ascii hex_class c); [now vm_compute | exact H]).
  cut (implb (is_hex c) (is_label_char c) = true).
  - now rewrite H.
  - apply (below_128 (fun x => implb (is_hex x) (is_label_char x)));
      [now vm_compute | exact L].
Qed.

Lemma labels_id_chars s :
  forallb (forallb is_label_char) (split_on dot s) = true ->
  forallb is_id_char s = true.
Proof.
  unfold is_id_char. induction s as [|c s IH]; simpl; auto.
  destruct (split_on_cons dot s) as (h & r & E). rewrite E in *.
  destruct (c =? dot)%N eqn:D; simpl.
  - intros H. rewrite orb_true_r. simpl. now apply IH.
  - intros H. apply andb_true_iff in H as [H Hr].
    apply andb_true_iff in H as [Hc Hh].
    rewrite Hc. simpl. apply IH. simpl. now rewrite Hh, Hr.
Qed.

Lemma accepts_id_chars s :
  accepts s = true -> s <> [] /\ forallb is_id_char s = true.
Proof.
  intros A. split; [intros ->; discriminate|].
  unfold accepts in A. apply orb_true_iff in A as [A|A];
    [apply orb_true_iff in A as [A|A]|].
  - unfold shape_implicit in A. apply andb_true_iff in A as [_ A].
    rewrite forallb_forall in *. intros c I. unfold is_id_char.
    now rewrite (is_hex_label_char _ (A c I)).
  - unfold shape_named in A. apply andb_true_iff in A as [A _].
    apply andb_true_iff in A as [_ A]. apply labels_id_chars.
    rewrite forallb_forall in *. intros l I. specialize (A l I).
    unfold is_label in A. now apply andb_true_iff in A as [_ A].
  - unfold shape_ethereum in A. destruct s as [|z [|x h]]; try discriminate.
    rewrite !andb_true_iff, !N.eqb_eq in A. destruct A as [[[-> Hx] _] F].
    assert (Lx : is_label_char x = true).
    { unfold is_label_char.
      rewrite (cls_match_canon label_class x (ch "x") Hx). reflexivity. }
    assert (I0 : is_id_char (ch "0") = true) by reflexivity.
    assert (Ix : is_id_char x = true)
      by (unfold is_id_char; now rewrite Lx).
    cbn [forallb]. rewrite I0, Ix. cbn [andb].
    rewrite forallb_forall in *. intros c I. unfold is_id_char.
    now rewrite (is_hex_label_char _ (F c I)).
Qed.

(** X3: an accepted identifier is not empty and holds nothing but ASCII
    letters, digits, underscores, hyphens and dots; in particular no
    whitespace inside and no character that would need escaping in a
    link. *)
Theorem valid_identifier_characters (raw : jsstring) :
  validateAccountId raw = None ->
  trim raw <> [] /\ forallb is_id_char (trim raw) = true.
Proof.
  rewrite validateAccountId_trimmed. intros H. apply accepts_id_chars.
  destruct (is_empty (trim raw)); [discriminate|].
  now destruct (accepts (trim raw)).
Qed.

Lemma valid_identifier_characters_witness :
  forallb is_id_char (trim (lit "  sub.account_1-x.testnet ")) = true.
Proof.
  apply (valid_identifier_characters (lit "  sub.account_1-x.testnet ")).
  vm_compute. reflexivity.
Defined.

(** * Invariants of the page *)

Lemma validateAccountId_message raw m :
  validateAccountId raw = Some m -> m <> [].
Proof.
  rewrite validateAccountId_trimmed.
  destruct (is_empty (trim raw)); [|destruct (accepts (trim raw))];
    intros H; try discriminate; injection H as <-; discriminate.
Qed.

Lemma errorMessage_nonempty id e : errorMessage id e <> [].
Proof.
  unfold errorMessage.
  destruct (message_is e TIMEOUT_REJECTION); [discriminate|].
  destruct (type_is e (lit "AccountDoesNotExist")); [discriminate|].
  destruct (message_includes e (lit "Exceeded 3 providers")
            || message_includes e (lit "Exceeded")); [discriminate|].
  destruct (message_includes e (lit "network")
            || message_includes e (lit "fetch")); [discriminate|].
  destruct (message e) as [[|c m]|]; discriminate.
Qed.

(** A step, with what it leaves alone. *)
Lemma step_detail st e st' :
  step st e = Some st' ->
  (exists v, e = InputChange v /\ mounted st = true /\
             st' = handleInputChange v st) \/
  (e = Submit /\ mounted st = true /\ st' = handleFetchBalance st) \/
  (exists dt, e = Tick dt /\ requests st' = requests st /\
              ui st' = ui st /\
              abortControllerRef st' = abortControllerRef st /\
              mounted st' = mounted st /\
              clock st' = (clock st + dt)%N) \/
  (e = Unmount /\ mounted st = true /\ mounted st' = false /\
   requests st' = abort_current st /\ ui st' = ui st /\
   abortControllerRef st' = abortControllerRef st /\
   clock st' = clock st) \/
  (exists i r r1,
     request_of e = Some i /\ nth_error (requests st) i = Some r /\
     requests st' = update i (fun _ => r1) (requests st) /\
     abortControllerRef st' = abortControllerRef st /\
     clock st' = clock st /\ mounted st' = mounted st /\
     aborted r1 = aborted r /\
     trimmedAccountId r1 = trimmedAccountId r /\
     (fetchPromise r1 = fetchPromise r \/
      resume r e = Some (fetchPromise r1)) /\
     ((handler r1 = handler r /\ ui st' = ui st /\
       (timeoutId r1 = timeoutId r \/
        (handler r = Returned /\ timeoutId r1 = Fired))) \/
      (handler r = Racing /\ handler r1 = Returned /\
       (forall d, timeoutId r1 <> Pending d) /\
       exists o, ui st' = after_race r o (ui st)))).
Proof.
  assert (F : forall i, fetch_event i e st = Some st' ->
                        request_of e = Some i ->
    exists i r r1,
     request_of e = Some i /\ nth_error (requests st) i = Some r /\
     requests st' = update i (fun _ => r1) (requests st) /\
     abortControllerRef st' = abortControllerRef st /\
     clock st' = clock st /\ mounted st' = mounted st /\
     aborted r1 = aborted r /\
     trimmedAccountId r1 = trimmedAccountId r /\
     (fetchPromise r1 = fetchPromise r \/
      resume r e = Some (fetchPromise r1)) /\
     ((handler r1 = handler r /\ ui st' = ui st /\
       (timeoutId r1 = timeoutId r \/
        (handler r = Returned /\ timeoutId r1 = Fired))) \/
      (handler r = Racing /\ handler r1 = Returned /\
       (forall d, timeoutId r1 <> Pending d) /\
       exists o, ui st' = after_race r o (ui st)))).
  { intros i H Q. unfold fetch_event in H.
    destruct (nth_error (requests st) i) as [r|] eqn:N; [|discriminate].
    destruct (resume r e) as [p|] eqn:R; [|discriminate].
    destruct (handler r) eqn:Hh; [destruct (settled p) as [o|] eqn:S|];
      injection H as <-.
    - exists i, r,
        (with_handler Returned
           (with_timer (clearTimeout (timeoutId (with_fetch p r)))
              (with_fetch p r))).
      repeat split; auto. right. repeat split; auto.
      + intros d. simpl. destruct (timeoutId r); discriminate.
      + exists o. reflexivity.
    - exists i, r, (with_fetch p r). repeat split; auto.
    - exists i, r, (with_fetch p r). repeat split; auto. }
  destruct e; simpl; intros H.
  - destruct (mounted st) eqn:M; [|discriminate]. injection H as <-.
    left. eauto.
  - destruct (mounted st) eqn:M; [|discriminate]. injection H as <-.
    right. left. auto.
  - do 4 right. now apply (F i).
  - do 4 right. now apply (F i).
  - do 4 right. now apply (F i).
  - do 4 right. now apply (F i).
  - do 4 right. unfold timer_event in H.
    destruct (nth_error (requests st) i) as [r|] eqn:N; [|discriminate].
    destruct (timeoutId r) as [d| |] eqn:T; try discriminate.
    destruct (d <=? clock st)%N; [|discriminate].
    destruct (handler r) eqn:Hh; injection H as <-.
    + exists i, r, (with_handler Returned (with_timer Fired r)).
      repeat split; auto. right. repeat split; auto.
      * intros d'. simpl. discriminate.
      * exists (inr TIMEOUT_ERROR). reflexivity.
    + exists i, r, (with_timer Fired r). repeat split; auto.
      left. repeat split; auto.
  - injection H as <-. right. right. left. exists dt. repeat split.
  - destruct (mounted st) eqn:M; [|discriminate]. injection H as <-.
    right. right. right. left. repeat split.
Qed.

Lemma live_spec r :
  live r = true <-> handler r = Racing /\ aborted r = false.
Proof.
  unfold live. destruct (handler r), (aborted r); simpl; split;
    try discriminate; auto; intros [A B]; discriminate.
Qed.

Lemma request_ok_abort now r : request_ok now r -> request_ok now (abort r).
Proof. unfold request_ok. simpl. auto. Qed.

(** A step that changes neither the requests nor what the page shows of
    a fetch keeps the invariant. *)
Lemma page_ok_frame st st' :
  page_ok st ->
  requests st' = requests st ->
  abortControllerRef st' = abortControllerRef st ->
  (clock st <= clock st')%N ->
  mounted st' = mounted st ->
  loading (ui st') = loading (ui st) ->
  balanceData (ui st') = balanceData (ui st) ->
  fetchedAccountId (ui st') = fetchedAccountId (ui st) ->
  (forall m, error (ui st') = Some m -> m <> []) ->
  page_ok st'.
Proof.
  intros (S1 & S2 & S3 & S4 & S5 & S6 & S7 & S8) Q R C M L B F E.
  unfold page_ok, sole_controller. rewrite Q, R, M, L, B, F.
  refine (conj _ (conj _ (conj _ (conj _ (conj _ (conj _ (conj _ _))))))).
  - exact S1.
  - intros i r N. destruct (S2 i r N) as [A T]. split; auto.
    destruct (handler r); auto.
    destruct T as (d & T & D). exists d. split; auto. lia.
  - exact S3.
  - exact S4.
  - exact S5.
  - exact E.
  - exact S7.
  - exact S8.
Qed.

Lemma nth_error_snoc (l : list Request) x i r :
  nth_error (l ++ [x]) i = Some r ->
  (nth_error l i = Some r /\ (i < length l)%nat) \/
  (i = length l /\ r = x).
Proof.
  intros H. destruct (Nat.lt_ge_cases i (length l)) as [L|L].
  - rewrite nth_error_app1 in H by exact L. auto.
  - rewrite nth_error_app2 in H by exact L.
    destruct (i - length l)%nat as [|k] eqn:D;
      [|destruct k; discriminate].
    injection H as <-. right. split; auto. lia.
Qed.

Lemma page_ok_submit st :
  page_ok st -> validateAccountId (accountId (ui st)) = None ->
  mounted st = true ->
  page_ok (handleFetchBalance st).
Proof.
  intros P V M. pose proof P as (S1 & S2 & S3 & S4 & S5 & S6 & S7 & S8).
  assert (SC : sole_controller (handleFetchBalance st)).
  { apply (sole_controller_step st Submit); auto. simpl. now rewrite M. }
  assert (A : accepts (trim (accountId (ui st))) = true).
  { rewrite validateAccountId_trimmed in V.
    destruct (is_empty (trim (accountId (ui st)))); [discriminate|].
    now destruct (accepts (trim (accountId (ui st)))). }
  unfold handleFetchBalance in *. rewrite V in *.
  unfold page_ok. cbn [ui requests clock mounted abortControllerRef
                       loading error balanceData fetchedAccountId
                       setFetchedAccountId setBalanceData setError
                       setLoading].
  refine (conj SC (conj _ (conj _ (conj _ (conj _ (conj _ (conj _ _))))))).
  - intros i r N. apply nth_error_snoc in N as [[N _]|[_ ->]].
    + apply abort_current_inv in N as (r0 & N & [[_ ->]|[_ ->]]).
      * apply (request_ok_abort _ _ (S2 i r0 N)).
      * apply (S2 i r0 N).
    + split; [exact A|]. simpl. eexists. split; [reflexivity|].
      unfold createTimeoutPromise. lia.
  - reflexivity.
  - intros _ _. eexists. eexists. split; [reflexivity|].
    rewrite nth_error_app2, Nat.sub_diag by lia. split; reflexivity.
  - rewrite M. discriminate.
  - discriminate.
  - discriminate.
  - split; reflexivity.
Qed.

Lemma page_ok_unmount st st' :
  page_ok st -> mounted st' = false ->
  requests st' = abort_current st -> ui st' = ui st ->
  abortControllerRef st' = abortControllerRef st ->
  clock st' = clock st -> sole_controller st' ->
  page_ok st'.
Proof.
  intros (S1 & S2 & S3 & S4 & S5 & S6 & S7 & S8) M Q U R C SC.
  assert (AA : forall i r, nth_error (requests st') i = Some r ->
                           aborted r = true).
  { intros i r N. rewrite Q in N.
    now apply (abort_current_all_aborted _ S1) in N. }
  unfold page_ok. rewrite M, U, C.
  refine (conj SC (conj _ (conj _ (conj _ (conj _ (conj _ (conj _ _))))))).
  - intros i r N. rewrite Q in N.
    apply abort_current_inv in N as (r0 & N & [[_ ->]|[_ ->]]).
    + apply (request_ok_abort _ _ (S2 i r0 N)).
    + apply (S2 i r0 N).
  - intros i r N L. apply live_spec in L as [_ L].
    rewrite (AA i r N) in L. discriminate.
  - discriminate.
  - intros _. exact AA.
  - exact S6.
  - exact S7.
  - exact S8.
Qed.

Lemma page_ok_request st st' i r r1 :
  page_ok st -> sole_controller st' ->
  nth_error (requests st) i = Some r ->
  requests st' = update i (fun _ => r1) (requests st) ->
  abortControllerRef st' = abortControllerRef st ->
  clock st' = clock st -> mounted st' = mounted st ->
  aborted r1 = aborted r ->
  trimmedAccountId r1 = trimmedAccountId r ->
  ((handler r1 = handler r /\ ui st' = ui st /\
    (timeoutId r1 = timeoutId r \/
     (handler r = Returned /\ timeoutId r1 = Fired))) \/
   (handler r = Racing /\ handler r1 = Returned /\
    (forall d, timeoutId r1 <> Pending d) /\
    exists o, ui st' = after_race r o (ui st))) ->
  page_ok st'.
Proof.
  intros (S1 & S2 & S3 & S4 & S5 & S6 & S7 & S8) SC N Q R C M A T K.
  assert (OK1 : request_ok (clock st) r1).
  { destruct (S2 i r N) as [Ar Tr]. split; [congruence|].
    destruct K as [(Hh & _ & [Tm|[Hr Tm]]) | (_ & Hr & Tm & _)].
    - rewrite Hh, Tm. exact Tr.
    - rewrite Hh, Hr, Tm. discriminate.
    - rewrite Hr. exact Tm. }
  assert (RQ : forall j r', nth_error (requests st') j = Some r' ->
             (j = i /\ r' = r1) \/
             (j <> i /\ nth_error (requests st) j = Some r')).
  { intros j r' H. rewrite Q in H.
    apply nth_error_update_inv in H as (r0 & H0 & ->).
    destruct (Nat.eqb_spec i j) as [->|D]; auto. }
  assert (KEEP : forall j r0, j <> i ->
             nth_error (requests st) j = Some r0 ->
             nth_error (requests st') j = Some r0).
  { intros j r0 D H. rewrite Q, nth_error_update_other; auto. }
  assert (AT : nth_error (requests st') i = Some r1).
  { rewrite Q. now apply (nth_error_update_same i (fun _ => r1) _ r). }
  unfold page_ok. rewrite R, C, M.
  refine (conj SC (conj _ _)).
  { intros j r' H. destruct (RQ j r' H) as [[-> ->]|[_ H0]]; eauto. }
  destruct K as [(Hh & U & _) | (Hr & Hr1 & _ & o & U)]; rewrite U.
  - assert (LV : live r1 = live r) by (unfold live; now rewrite Hh, A).
    refine (conj _ (conj _ (conj _ (conj S6 (conj S7 S8))))).
    + intros j r' H L. destruct (RQ j r' H) as [[-> ->]|[_ H0]].
      * apply (S3 i r N). congruence.
      * apply (S3 j r' H0 L).
    + intros Mt Ld. destruct (S4 Mt Ld) as (i0 & r0 & Rf & N0 & L0).
      destruct (Nat.eq_dec i0 i) as [->|D].
      * exists i, r1. repeat split; auto. congruence.
      * exists i0, r0. repeat split; auto.
    + intros Mf j r' H. destruct (RQ j r' H) as [[-> ->]|[_ H0]].
      * rewrite A. apply (S5 Mf i r N).
      * apply (S5 Mf j r' H0).
  - destruct (aborted r) eqn:Ab.
    + rewrite after_race_aborted by exact Ab.
      refine (conj _ (conj _ (conj _ (conj S6 (conj S7 S8))))).
      * intros j r' H L. destruct (RQ j r' H) as [[-> ->]|[_ H0]].
        -- apply live_spec in L as [L _]. congruence.
        -- apply (S3 j r' H0 L).
      * intros Mt Ld. destruct (S4 Mt Ld) as (i0 & r0 & Rf & N0 & L0).
        destruct (Nat.eq_dec i0 i) as [->|D].
        -- apply live_spec in L0 as [_ L0]. congruence.
        -- exists i0, r0. repeat split; auto.
      * intros Mf j r' H. destruct (RQ j r' H) as [[-> ->]|[_ H0]].
        -- congruence.
        -- apply (S5 Mf j r' H0).
    + assert (Ld : loading (after_race r o (ui st)) = false)
        by (unfold after_race; rewrite Ab; now destruct o).
      refine (conj _ (conj _ (conj _ (conj _ (conj _ _))))).
      * intros j r' H L. exfalso.
        destruct (RQ j r' H) as [[-> ->]|[D H0]].
        -- apply live_spec in L as [L _]. congruence.
        -- apply live_spec in L as [_ L].
           pose proof (S1 j r' H0 L) as E1.
           pose proof (S1 i r N Ab) as E2. congruence.
      * rewrite Ld. discriminate.
      * intros Mf. pose proof (S5 Mf i r N). congruence.
      * intros m. unfold after_race. rewrite Ab.
        destruct o; simpl; [apply S6|].
        intros H. injection H as <-. apply errorMessage_nonempty.
      * intros a. unfold after_race. rewrite Ab.
        destruct o; simpl; [|apply S7].
        intros H. injection H as <-. apply (S2 i r N).
      * unfold after_race. rewrite Ab.
        destruct o; simpl; [split; discriminate | exact S8].
Qed.

Lemma page_ok_step st e st' :
  page_ok st -> step st e = Some st' -> page_ok st'.
Proof.
  intros P H.
  assert (SC : sole_controller st')
    by (apply (sole_controller_step st e); [apply P | exact H]).
  destruct (step_detail _ _ _ H)
    as [(v & -> & M & ->)
       | [(-> & M & ->)
       | [(dt & -> & Q & U & R & M & C)
       | [(-> & M & M' & Q & U & R & C)
       | (i & r & r1 & Z & N & Q & R & C & M & A & T & _ & K)]]]].
  - apply (page_ok_frame st); auto; try reflexivity; simpl.
    1-3: destruct (error (ui st)) as [m0|];
      [destruct (is_empty m0)|]; reflexivity.
    destruct P as (_ & _ & _ & _ & _ & S6 & _). intros m.
    destruct (error (ui st)) as [m0|] eqn:E;
      [destruct (is_empty m0) eqn:Em|]; simpl; try discriminate.
    + rewrite E. intros X. injection X as <-. now apply (S6 m0).
    + rewrite E. discriminate.
  - destruct (validateAccountId (accountId (ui st))) as [msg|] eqn:V.
    + apply (page_ok_frame st); auto;
        unfold handleFetchBalance; rewrite V; try reflexivity.
      simpl. intros m X. injection X as <-.
      now apply (validateAccountId_message _ _ V).
    + now apply page_ok_submit.
  - apply (page_ok_frame st); auto; try congruence.
    + rewrite C. lia.
    + rewrite U. apply P.
  - now apply (page_ok_unmount st).
  - now apply (page_ok_request st st' i r r1).
Qed.

Lemma reachable_page_ok st : reachable st -> page_ok st.
Proof.
  induction 1 as [|st e st' _ IH H].
  - unfold page_ok, sole_controller. simpl.
    refine (conj _ (conj _ (conj _ (conj _ (conj _ (conj _ (conj _ _))))))).
    + intros [|i] r; discriminate.
    + intros [|i] r; discriminate.
    + intros [|i] r; discriminate.
    + discriminate.
    + discriminate.
    + discriminate.
    + discriminate.
    + split; reflexivity.
  - now apply (page_ok_step st e).
Qed.

(** X4: in every state the page can reach, a handler that waits for the
    race has its timer pending and due within 30000 ms, and a handler that
    has returned, by any of its exits, has left no pending timer. *)
Theorem timers_follow_handlers (st : State) :
  reachable st ->
  forall i r,
    nth_error (requests st) i = Some r ->
    match handler r with
    | Racing =>
        exists d, timeoutId r = Pending d /\ (d <= clock st + 30000)%N
    | Returned => forall d, timeoutId r <> Pending d
    end.
Proof.
  intros R i r N.
  destruct (reachable_page_ok _ R) as (_ & S2 & _).
  apply (S2 i r N).
Qed.

Lemma alice_typed_reachable : reachable alice_typed.
Proof.
  apply (reach_step initial (InputChange (lit "alice.near")));
    [apply reach_initial | reflexivity].
Qed.

Lemma after_reachable es : reachable (after es).
Proof.
  unfold after. destruct (run alice_typed es) as [st|] eqn:H.
  - apply (run_reachable es alice_typed);
      [apply alice_typed_reachable | exact H].
  - apply reach_initial.
Qed.

Lemma timers_follow_handlers_witness :
  exists d,
    option_map timeoutId
      (nth_error (requests (after [Submit; Tick 100])) 0)
    = Some (Pending d) /\
    (d <= clock (after [Submit; Tick 100]) + 30000)%N.
Proof.
  destruct (timers_follow_handlers
              (after [Submit; Tick 100]) (after_reachable _) 0%nat
              {| trimmedAccountId := lit "alice.near"; aborted := false;
                 fetchPromise := AwaitConnect;
                 timeoutId := Pending 30000; handler := Racing |}
              eq_refl) as (d & T & D).
  exists d. split; [|exact D].
  simpl in T. injection T as <-. reflexivity.
Defined.

(** X5: the loading flag follows the live request: in every reachable
    state a live request implies that the page is loading, and while the
    component is mounted a loading page has a live request, the one
    [abortControllerRef] refers to. *)
Theorem loading_iff_live (st : State) :
  reachable st ->
  (forall i r,
      nth_error (requests st) i = Some r -> live r = true ->
      loading (ui st) = true) /\
  (mounted st = true -> loading (ui st) = true ->
   exists i r,
     abortControllerRef st = Some i /\
     nth_error (requests st) i = Some r /\ live r = true).
Proof.
  intros R. destruct (reachable_page_ok _ R) as (_ & _ & S3 & S4 & _).
  split; assumption.
Qed.

Lemma loading_iff_live_witness :
  loading (ui (after [Submit; ConnectDone 0 (Resolve tt)])) = true.
Proof.
  refine (proj1 (loading_iff_live _ (after_reachable _))
                0%nat
                {| trimmedAccountId := lit "alice.near"; aborted := false;
                   fetchPromise := AwaitAccount;
                   timeoutId := Pending 30000; handler := Racing |} _ _);
    vm_compute; reflexivity.
Defined.

Lemma submitDisabled_spec u :
  submitDisabled u = false <->
  loading u = false /\ validateAccountId (accountId u) = None.
Proof.
  unfold submitDisabled.
  rewrite (validateAccountId_trimmed (accountId u)).
  destruct (loading u), (is_empty (trim (accountId u))),
    (accepts (trim (accountId u))); simpl; split; try discriminate; auto;
    intros [A B]; discriminate.
Qed.

(** X6: the submit button is enabled exactly when the page is not loading
    and the input is valid (the emptiness test adds nothing).  In a
    reachable state with the button enabled no request is live, and a
    submission starts a new request, shows the page as loading and clears
    the error: a submission through the button never ends in the
    validation message and never supersedes a live request. *)
Theorem submit_through_button (st : State) :
  reachable st -> mounted st = true -> submitDisabled (ui st) = false ->
  (loading (ui st) = false /\
   validateAccountId (accountId (ui st)) = None) /\
  (forall i r, nth_error (requests st) i = Some r -> live r = false) /\
  exists st',
    step st Submit = Some st' /\
    length (requests st') = S (length (requests st)) /\
    loading (ui st') = true /\ error (ui st') = None.
Proof.
  intros R M D. apply submitDisabled_spec in D as [L V].
  split; [auto|]. split.
  - intros i r N. destruct (live r) eqn:Lv; auto.
    pose proof (proj1 (loading_iff_live st R) i r N Lv). congruence.
  - simpl. rewrite M. eexists. split; [reflexivity|].
    unfold handleFetchBalance. rewrite V. cbn.
    rewrite length_app, length_abort_current. simpl.
    repeat split. lia.
Qed.

Lemma submit_through_button_witness :
  exists st',
    step alice_typed Submit = Some st' /\
    length (requests st') = 1%nat /\
    loading (ui st') = true /\ error (ui st') = None.
Proof.
  apply (submit_through_button alice_typed alice_typed_reachable);
    vm_compute; reflexivity.
Defined.

(** X7: once the component is unmounted the state of the page never
    changes again, whatever answers and timers arrive afterwards, and
    neither typing nor submitting is possible. *)
Theorem unmounted_is_final (es : list Event) : forall st st',
  reachable st -> mounted st = false ->
  run st es = Some st' ->
  ui st' = ui st /\ mounted st' = false.
Proof.
  induction es as [|e es IH]; simpl; intros st st' R M H.
  - injection H as <-. auto.
  - destruct (step st e) as [st1|] eqn:E; [|discriminate].
    assert (R1 : reachable st1) by now apply (reach_step st e).
    destruct (reachable_page_ok _ R) as (_ & _ & _ & _ & S5 & _).
    assert (K : ui st1 = ui st /\ mounted st1 = false).
    { destruct (step_detail _ _ _ E)
        as [(v & _ & M1 & _)
           | [(_ & M1 & _)
           | [(dt & _ & _ & U & _ & M1 & _)
           | [(_ & M1 & _)
           | (i & r & r1 & _ & N & _ & _ & _ & M1 & _ & _ & _ & K)]]]];
        try congruence.
      - split; congruence.
      - split; [|congruence].
        destruct K as [(_ & U & _) | (_ & _ & _ & o & U)]; auto.
        rewrite U. apply after_race_aborted. apply (S5 M i r N). }
    destruct K as [U1 M1].
    destruct (IH st1 st' R1 M1 H) as [U2 M2]. split; congruence.
Qed.

Lemma unmounted_is_final_witness :
  ui (after [Submit; Unmount; ConnectDone 0 (Resolve tt); Tick 40000;
             TimerFires 0])
  = ui (after [Submit; Unmount]).
Proof.
  refine (proj1 (unmounted_is_final
                   [ConnectDone 0 (Resolve tt); Tick 40000; TimerFires 0]
                   (after [Submit; Unmount]) _
                   (after_reachable _) _ _));
    vm_compute; reflexivity.
Defined.

Lemma is_id_char_not_space c : is_id_char c = true -> isWhiteSpace c = false.
Proof.
  intros H. unfold is_id_char in H. apply orb_true_iff in H as [H|H].
  - assert (L : (c < 128)%N)
      by (apply (cls_match_ascii label_class c); [now vm_compute | exact H]).
    apply negb_true_iff.
    cut (implb (is_label_char c) (negb (isWhiteSpace c)) = true).
    + now rewrite H.
    + apply (below_128
               (fun x => implb (is_label_char x) (negb (isWhiteSpace x))));
        [now vm_compute | exact L].
  - apply N.eqb_eq in H. now subst c.
Qed.

Lemma accepts_validates a : accepts a = true -> validateAccountId a = None.
Proof.
  intros A. destruct (accepts_id_chars a A) as [N F].
  assert (T : trim a = a).
  { apply trim_clean. rewrite forallb_forall in *. intros c I.
    now rewrite (is_id_char_not_space c (F c I)). }
  rewrite validateAccountId_trimmed, T, A.
  destruct a; [contradiction | reflexivity].
Qed.

Lemma path_chars_of_id a :
  forallb is_id_char a = true -> forallb is_path_char a = true.
Proof.
  rewrite !forallb_forall. intros H c I. unfold is_path_char.
  now rewrite (H c I).
Qed.

(** X8: in every reachable state the balance and the fetched identifier
    are set and cleared together, so the panel is rendered exactly when
    there is a balance; the identifier it shows is an accepted one, and
    the three links built from it hold only letters, digits and the
    characters [_ - . / :]. *)
Theorem panel_shows_valid_identifier (st : State) :
  reachable st ->
  (hasBalanceData (ui st) = true <-> balanceData (ui st) <> None) /\
  (forall a,
      fetchedAccountId (ui st) = Some a ->
      validateAccountId a = None /\
      forallb is_path_char (pikespeakHref a) = true /\
      forallb is_path_char (explorerHref a) = true /\
      forallb is_path_char (nearblocksHref a) = true).
Proof.
  intros R.
  destruct (reachable_page_ok _ R) as (_ & _ & _ & _ & _ & _ & S7 & S8).
  split.
  - unfold hasBalanceData.
    destruct (fetchedAccountId (ui st)) as [a|] eqn:F.
    + destruct (accepts_id_chars a (S7 a eq_refl)) as [N _].
      destruct a; [contradiction|]. simpl.
      destruct (balanceData (ui st)); split; try discriminate; auto.
    + rewrite (proj2 S8 eq_refl). split; [discriminate|].
      intros X. now contradiction X.
  - intros a F. pose proof (S7 a F) as A.
    destruct (accepts_id_chars a A) as [_ C].
    apply path_chars_of_id in C.
    split; [now apply accepts_validates|].
    unfold pikespeakHref, explorerHref, nearblocksHref.
    rewrite !forallb_app, C. repeat split; vm_compute; reflexivity.
Qed.

Lemma panel_shows_valid_identifier_witness :
  hasBalanceData
    (ui (after [Submit; ConnectDone 0 (Resolve tt);
                AccountDone 0 (Resolve tt);
                LiquidDone 0 (Resolve (lit "7"));
                StakedDone 0 (Resolve (lit "0"))])) = true.
Proof.
  apply (proj1 (panel_shows_valid_identifier _
                  (after_reachable _))).
  vm_compute. discriminate.
Defined.

(** X9: an error on the page is never the empty string, so the alert is
    rendered whenever an error is set; and typing, while the component is
    mounted, always clears it and changes nothing but the input. *)
Theorem error_is_shown_until_typing (st : State) :
  reachable st ->
  (errorShown (ui st) = true <-> error (ui st) <> None) /\
  (forall v,
      mounted st = true ->
      exists st',
        step st (InputChange v) = Some st' /\
        error (ui st') = None /\ accountId (ui st') = v /\
        loading (ui st') = loading (ui st) /\
        balanceData (ui st') = balanceData (ui st) /\
        fetchedAccountId (ui st') = fetchedAccountId (ui st) /\
        requests st' = requests st /\
        abortControllerRef st' = abortControllerRef st).
Proof.
  intros R.
  destruct (reachable_page_ok _ R) as (_ & _ & _ & _ & _ & S6 & _).
  split.
  - unfold errorShown. destruct (error (ui st)) as [m|] eqn:E.
    + pose proof (S6 m eq_refl) as N.
      destruct m; [contradiction|]. simpl. split; [discriminate | auto].
    + split; [discriminate|]. intros X. now contradiction X.
  - intros v M. simpl. rewrite M. eexists. split; [reflexivity|].
    unfold handleInputChange.
    destruct (error (ui st)) as [m|] eqn:E.
    + pose proof (S6 m eq_refl) as N.
      destruct m; [contradiction|]. simpl. repeat split.
    + simpl. rewrite E. repeat split.
Qed.

Lemma error_is_shown_until_typing_witness :
  errorShown
    (ui (after [InputChange (lit "nope"); Submit])) = true /\
  option_map (fun st => error (ui st))
    (step (after [InputChange (lit "nope"); Submit])
          (InputChange (lit "nope.near")))
  = Some None.
Proof.
  destruct (error_is_shown_until_typing
              (after [InputChange (lit "nope"); Submit])
              (after_reachable _)) as [S T].
  split.
  - apply S. vm_compute. discriminate.
  - destruct (T (lit "nope.near") eq_refl) as (st' & -> & E & _).
    simpl. now rewrite E.
Defined.

(** * Further properties of the fetch *)

Lemma update_update i (r1 r2 : Request) : forall l,
  update i (fun _ => r2) (update i (fun _ => r1) l)
  = update i (fun _ => r2) l.
Proof.
  induction i as [|i IH]; intros [|x l]; simpl; auto.
  now rewrite IH.
Qed.

(** X10: the answers of the two sub-queries may come in either order:
    from the point where both are awaited, liquid then staked and staked
    then liquid lead to the same state of the page and of the request. *)
Theorem subqueries_commute (st : State) (i : nat) (r : Request)
    (a s : jsstring) :
  nth_error (requests st) i = Some r ->
  fetchPromise r = AwaitAll None None ->
  run st [LiquidDone i (Resolve a); StakedDone i (Resolve s)]
  = run st [StakedDone i (Resolve s); LiquidDone i (Resolve a)] /\
  run st [LiquidDone i (Resolve a); StakedDone i (Resolve s)] <> None.
Proof.
  intros N P.
  assert (L1 : step st (LiquidDone i (Resolve a))
               = Some (with_requests
                         (update i
                            (fun _ => with_fetch (AwaitAll (Some a) None) r)
                            (requests st)) st)).
  { simpl. unfold fetch_event. rewrite N. unfold resume. rewrite P.
    cbn [settled]. now destruct (handler r). }
  assert (S1 : step st (StakedDone i (Resolve s))
               = Some (with_requests
                         (update i
                            (fun _ => with_fetch (AwaitAll None (Some s)) r)
                            (requests st)) st)).
  { simpl. unfold fetch_event. rewrite N. unfold resume. rewrite P.
    cbn [settled]. now destruct (handler r). }
  cbn [run]. rewrite L1, S1.
  cbn [step]. unfold fetch_event. cbn [requests with_requests].
  rewrite !(nth_error_update_same i _ _ _ N).
  unfold resume, checkpoint.
  cbn [fetchPromise aborted handler with_fetch].
  destruct (handler r), (aborted r); cbn [settled];
    try destruct (conversion a s); cbn [settled];
    unfold settle_race;
    cbn [requests ui with_requests with_ui with_fetch with_timer
         with_handler timeoutId fetchPromise aborted handler
         trimmedAccountId abortControllerRef clock mounted];
    rewrite ?update_update; split; try reflexivity; discriminate.
Qed.

Lemma subqueries_commute_witness :
  run (after [Submit; ConnectDone 0 (Resolve tt); AccountDone 0 (Resolve tt)])
    [LiquidDone 0 (Resolve (lit "12")); StakedDone 0 (Resolve (lit "30"))]
  = run (after [Submit; ConnectDone 0 (Resolve tt);
                AccountDone 0 (Resolve tt)])
      [StakedDone 0 (Resolve (lit "30")); LiquidDone 0 (Resolve (lit "12"))].
Proof.
  apply (subqueries_commute
           (after [Submit; ConnectDone 0 (Resolve tt);
                   AccountDone 0 (Resolve tt)])
           0%nat
           {| trimmedAccountId := lit "alice.near"; aborted := false;
              fetchPromise := AwaitAll None None;
              timeoutId := Pending 30000; handler := Racing |});
    vm_compute; reflexivity.
Defined.

(** X11: when the second answer arrives for a live request and the two
    amounts convert, the page shows the record of exactly these amounts
    under the identifier of that request and stops loading; the error
    and the input are left as they are, the timer is cleared and the
    handler has returned. *)
Theorem fetch_success (st : State) (i : nat) (r : Request)
    (a s : jsstring) (result : BalanceData) :
  nth_error (requests st) i = Some r -> live r = true ->
  balanceRecord a s = Some result ->
  (fetchPromise r = AwaitAll (Some a) None ->
   exists st' r',
     step st (StakedDone i (Resolve s)) = Some st' /\
     ui st' = {| accountId := accountId (ui st);
                 balanceData := Some result;
                 fetchedAccountId := Some (trimmedAccountId r);
                 loading := false;
                 error := error (ui st) |} /\
     nth_error (requests st') i = Some r' /\
     handler r' = Returned /\ timeoutId r' = clearTimeout (timeoutId r)) /\
  (fetchPromise r = AwaitAll None (Some s) ->
   exists st' r',
     step st (LiquidDone i (Resolve a)) = Some st' /\
     ui st' = {| accountId := accountId (ui st);
                 balanceData := Some result;
                 fetchedAccountId := Some (trimmedAccountId r);
                 loading := false;
                 error := error (ui st) |} /\
     nth_error (requests st') i = Some r' /\
     handler r' = Returned /\ timeoutId r' = clearTimeout (timeoutId r)).
Proof.
  intros N L B. apply live_spec in L as [Hr A].
  split; intros P; simpl; unfold fetch_event; rewrite N;
    unfold resume, checkpoint, conversion; rewrite P, A, B, Hr;
    cbn [settled]; eexists; eexists; (split; [reflexivity|]);
    unfold settle_race;
    cbn [ui requests with_ui with_requests];
    rewrite (nth_error_update_same i _ _ _ N);
    unfold after_race; cbn [aborted with_fetch]; rewrite A;
    repeat split.
Qed.

Lemma fetch_success_witness :
  option_map (fun st => balanceData (ui st))
    (step (after [Submit; ConnectDone 0 (Resolve tt);
                  AccountDone 0 (Resolve tt);
                  LiquidDone 0 (Resolve (lit "0"))])
          (StakedDone 0 (Resolve (lit "0"))))
  = Some (Some {| available := lit "0"; staked := lit "0";
                  total := lit "0" |}).
Proof.
  destruct (fetch_success
              (after [Submit; ConnectDone 0 (Resolve tt);
                      AccountDone 0 (Resolve tt);
                      LiquidDone 0 (Resolve (lit "0"))])
              0%nat
              {| trimmedAccountId := lit "alice.near"; aborted := false;
                 fetchPromise := AwaitAll (Some (lit "0")) None;
                 timeoutId := Pending 30000; handler := Racing |}
              (lit "0") (lit "0")
              {| available := lit "0"; staked := lit "0";
                 total := lit "0" |}
              eq_refl eq_refl eq_refl) as [S _].
  destruct (S eq_refl) as (st' & r' & -> & U & _).
  simpl. now rewrite U.
Defined.

Lemma resume_aborted r e p :
  aborted r = true -> resume r e = Some p ->
  (before_subqueries (fetchPromise r) = true ->
   before_subqueries p = true \/ exists err, p = Rejected err) /\
  (forall res, p <> Fulfilled res).
Proof.
  intros A H. unfold resume, checkpoint in H. rewrite A in H.
  destruct (fetchPromise r) as [| |lq sq|res0|err0] eqn:P;
    [ | | destruct lq as [a|], sq as [s|] | | ];
    destruct e as [value| |i o|i o|i o|i o|i|dt|]; try discriminate;
    destruct o as [v|err]; try discriminate;
    injection H as <-; simpl; split; eauto; try discriminate.
Qed.

(** X12: a request whose controller has been aborted does no further
    work: if its fetch has not launched the two sub-queries it never
    launches them, and its fetch never produces a record. *)
Theorem aborted_fetch_stops (st : State) (e : Event) (st' : State)
    (i : nat) (r : Request) :
  step st e = Some st' ->
  nth_error (requests st) i = Some r -> aborted r = true ->
  exists r',
    nth_error (requests st') i = Some r' /\ aborted r' = true /\
    (before_subqueries (fetchPromise r) = true ->
     before_subqueries (fetchPromise r') = true \/
     exists err, fetchPromise r' = Rejected err) /\
    (forall res,
        fetchPromise r' = Fulfilled res -> fetchPromise r = Fulfilled res).
Proof.
  intros H N A.
  assert (SAME : forall r',
             fetchPromise r' = fetchPromise r -> aborted r' = true ->
             aborted r' = true /\
             (before_subqueries (fetchPromise r) = true ->
              before_subqueries (fetchPromise r') = true \/
              exists err, fetchPromise r' = Rejected err) /\
             (forall res,
                 fetchPromise r' = Fulfilled res ->
                 fetchPromise r = Fulfilled res)).
  { intros r' E A'. rewrite E. auto. }
  assert (AB : forall l,
             (exists r0, nth_error l i = Some r0 /\
                         (r0 = r \/ r0 = abort r)) ->
             exists r',
               nth_error l i = Some r' /\ aborted r' = true /\
               (before_subqueries (fetchPromise r) = true ->
                before_subqueries (fetchPromise r') = true \/
                exists err, fetchPromise r' = Rejected err) /\
               (forall res,
                   fetchPromise r' = Fulfilled res ->
                   fetchPromise r = Fulfilled res)).
  { intros l (r0 & N0 & [->| ->]); eexists; (split; [exact N0|]);
      apply SAME; auto. }
  destruct (step_detail _ _ _ H)
    as [(v & _ & _ & ->)
       | [(_ & _ & ->)
       | [(dt & _ & Q & _)
       | [(_ & _ & _ & Q & _)
       | (j & r0 & r1 & Z & N0 & Q & _ & _ & _ & A1 & _ & F & _)]]]].
  - apply AB. simpl. eauto.
  - apply AB. unfold handleFetchBalance.
    destruct (validateAccountId (accountId (ui st))); simpl; [eauto|].
    destruct (abort_current_request _ _ _ N) as (r' & N' & D).
    exists r'. split.
    + rewrite nth_error_app1; auto.
      apply nth_error_Some. congruence.
    + destruct D as [->|[-> _]]; auto.
  - apply AB. rewrite Q. eauto.
  - apply AB. rewrite Q.
    destruct (abort_current_request _ _ _ N) as (r' & N' & D).
    exists r'. split; auto. destruct D as [->|[-> _]]; auto.
  - rewrite Q. destruct (Nat.eq_dec j i) as [->|D].
    + assert (r0 = r) by congruence. subst r0.
      exists r1. split; [now apply (nth_error_update_same i _ _ r)|].
      destruct F as [F|F]; [apply SAME; congruence|].
      destruct (resume_aborted _ _ _ A F) as [B1 B2].
      split; [congruence|]. split; auto.
      intros res X. now contradiction (B2 res).
    + apply AB. exists r. split; auto.
      now rewrite nth_error_update_other.
Qed.

Lemma aborted_fetch_stops_witness :
  option_map fetchPromise
    (nth_error
       (requests (after [Submit; ConnectDone 0 (Resolve tt); Unmount;
                         AccountDone 0 (Resolve tt)])) 0)
  = Some (Rejected CANCELLED).
Proof.
  destruct (aborted_fetch_stops
              (after [Submit; ConnectDone 0 (Resolve tt); Unmount])
              (AccountDone 0 (Resolve tt))
              (after [Submit; ConnectDone 0 (Resolve tt); Unmount;
                      AccountDone 0 (Resolve tt)])
              0%nat
              {| trimmedAccountId := lit "alice.near"; aborted := true;
                 fetchPromise := AwaitAccount;
                 timeoutId := Pending 30000; handler := Racing |}
              eq_refl eq_refl eq_refl) as (r' & N & _).
  rewrite N. vm_compute in N. injection N as <-. reflexivity.
Defined.

(** * Further properties of the conversion *)

Section Records.
Local Open Scope Z_scope.

Lemma BigInt_toString_any z : BigInt (toString z) = Some z.
Proof.
  destruct z as [|p|p]; [reflexivity | now apply BigInt_toString |].
  unfold toString. cbn [Z.to_int]. unfold BigInt.
  pose proof (uint_digits_digits (Pos.to_uint p)) as D.
  rewrite trim_clean.
  - rewrite N.eqb_refl. unfold parse_digits.
    pose proof (uint_digits_nonnil _ (Unsigned.to_uint_nonnil p)) as NN.
    destruct (uint_digits (Pos.to_uint p)) as [|c t] eqn:E;
      [contradiction|].
    rewrite <- E, digits_value_uint, Unsigned.of_to. reflexivity.
  - cbn [forallb]. apply andb_true_iff. split; [reflexivity|].
    rewrite forallb_forall in *. intros c I.
    destruct (is_digit_facts c (D c I)) as (-> & _). reflexivity.
Qed.

Lemma formatNearAmount_value s z n :
  BigInt s = Some z ->
  formatNearAmount s n = formatNearAmount (toString z) n.
Proof.
  intros H. unfold formatNearAmount.
  now rewrite H, BigInt_toString_any.
Qed.

Lemma formatNearAmount_some s z n :
  BigInt s = Some z -> formatNearAmount s n <> None.
Proof. intros H. unfold formatNearAmount. rewrite H. discriminate. Qed.

(** X13: the conversion of lines 153 to 167 fails exactly when one of the
    two raw amounts is not an integer literal; whenever both are, a record
    is produced, also for amounts beyond 64 bits. *)
Theorem balanceRecord_fails_only_on_bad_input (av st : jsstring) :
  balanceRecord av st = None <-> BigInt av = None \/ BigInt st = None.
Proof.
  unfold balanceRecord, totalYocto.
  destruct (BigInt av) as [a|] eqn:Ea; [|split; auto].
  destruct (BigInt st) as [s|] eqn:Es; [|split; auto].
  pose proof (formatNearAmount_some av a 4 Ea) as F1.
  pose proof (formatNearAmount_some st s 4 Es) as F2.
  pose proof (formatNearAmount_some (toString (a + s)) (a + s) 4
                (BigInt_toString_any _)) as F3.
  destruct (formatNearAmount av 4); [|contradiction].
  destruct (formatNearAmount st 4); [|contradiction].
  destruct (formatNearAmount (toString (a + s)) 4); [|contradiction].
  split; [discriminate | intros [X|X]; discriminate].
Qed.

(** X14: the record does not depend on which sub-query brought which
    amount beyond the two labels: exchanging the raw amounts exchanges
    available and staked and leaves the total as it is. *)
Theorem balanceRecord_swap (av st : jsstring) (r : BalanceData) :
  balanceRecord av st = Some r ->
  balanceRecord st av
  = Some {| available := staked r; staked := available r;
            total := total r |}.
Proof.
  unfold balanceRecord, totalYocto.
  destruct (BigInt av) as [a|]; [|discriminate].
  destruct (BigInt st) as [s|]; [|discriminate].
  rewrite (Z.add_comm s a).
  destruct (formatNearAmount av 4); [|discriminate].
  destruct (formatNearAmount st 4); [|discriminate].
  destruct (formatNearAmount (toString (a + s)) 4); [|discriminate].
  intros H. injection H as <-. reflexivity.
Qed.

Lemma balanceRecord_swap_witness :
  balanceRecord (lit "500000000000000000000000")
                (lit "1000000000000000000000000")
  = Some {| available := lit "0.5"; staked := lit "1";
            total := lit "1.5" |}.
Proof.
  apply (balanceRecord_swap
           (lit "1000000000000000000000000")
           (lit "500000000000000000000000")
           {| available := lit "1"; staked := lit "0.5";
              total := lit "1.5" |}).
  vm_compute. reflexivity.
Defined.

(** X15: with nothing staked the total shown is the available amount
    shown, and with nothing available it is the staked amount shown:
    the total is formatted from the sum, and a zero adds nothing. *)
Theorem balanceRecord_zero_part (av st : jsstring) (r : BalanceData) :
  balanceRecord av st = Some r ->
  (BigInt st = Some 0 -> total r = available r) /\
  (BigInt av = Some 0 -> total r = staked r).
Proof.
  unfold balanceRecord, totalYocto.
  destruct (BigInt av) as [a|] eqn:Ea; [|discriminate].
  destruct (BigInt st) as [s|] eqn:Es; [|discriminate].
  rewrite (formatNearAmount_value av a 4 Ea).
  rewrite (formatNearAmount_value st s 4 Es).
  destruct (formatNearAmount (toString a) 4) as [fa|] eqn:Fa;
    [|discriminate].
  destruct (formatNearAmount (toString s) 4) as [fs|] eqn:Fs;
    [|discriminate].
  destruct (formatNearAmount (toString (a + s)) 4) as [ft|] eqn:Ft;
    [|discriminate].
  intros H. injection H as <-. simpl.
  split; intros Z; injection Z as ->.
  - rewrite Z.add_0_r in Ft. congruence.
  - rewrite Z.add_0_l in Ft. congruence.
Qed.

Lemma balanceRecord_zero_part_witness :
  option_map total
    (balanceRecord (lit "123456789000000000000000000") (lit " 0 "))
  = option_map available
      (balanceRecord (lit "123456789000000000000000000") (lit " 0 ")).
Proof.
  destruct (balanceRecord (lit "123456789000000000000000000") (lit " 0 "))
    as [r|] eqn:B; [|reflexivity].
  simpl. f_equal.
  apply (proj1 (balanceRecord_zero_part _ _ r B)).
  vm_compute. reflexivity.
Defined.

End Records.

(** * The three shapes exclude one another *)

Lemma hex_no_dot h : forallb is_hex h = true -> no_dot h = true.
Proof.
  unfold no_dot. rewrite !forallb_forall. intros H c I.
  apply negb_true_iff. apply N.eqb_neq. intros ->.
  specialize (H _ I). now vm_compute in H.
Qed.

Lemma shape_named_has_dot s :
  shape_named 2 s = true -> no_dot s = false.
Proof.
  unfold shape_named. intros H.
  destruct (no_dot s) eqn:D; auto.
  rewrite (split_on_no_dot s D) in H. discriminate.
Qed.

(** X16: an accepted identifier has exactly one of the three shapes: no
    string is at once a 64-character hexadecimal address and a named
    address, or one of these and a [0x] address. *)
Theorem shapes_are_exclusive (s : jsstring) :
  accepts s = true ->
  (shape_implicit s = true /\ shape_named 2 s = false /\
   shape_ethereum s = false) \/
  (shape_implicit s = false /\ shape_named 2 s = true /\
   shape_ethereum s = false) \/
  (shape_implicit s = false /\ shape_named 2 s = false /\
   shape_ethereum s = true).
Proof.
  assert (IN : shape_implicit s = true -> shape_named 2 s = false).
  { unfold shape_implicit. intros H. apply andb_true_iff in H as [_ H].
    destruct (shape_named 2 s) eqn:N; auto.
    apply shape_named_has_dot in N. now rewrite (hex_no_dot s H) in N. }
  assert (IE : shape_implicit s = true -> shape_ethereum s = false).
  { unfold shape_implicit, shape_ethereum. intros H.
    apply andb_true_iff in H as [L _]. apply Nat.eqb_eq in L.
    destruct s as [|z [|x h]]; auto.
    simpl in L. destruct (Nat.eqb_spec (length h) 40) as [E|E]; [lia|].
    now rewrite andb_false_r. }
  assert (EN : shape_ethereum s = true -> shape_named 2 s = false).
  { unfold shape_ethereum. intros H.
    destruct s as [|z [|x h]]; try discriminate.
    rewrite !andb_true_iff, !N.eqb_eq in H. destruct H as [[[-> Hx] _] F].
    destruct (shape_named 2 (ch "0" :: x :: h)) eqn:N; auto.
    apply shape_named_has_dot in N. unfold no_dot in N.
    cbn [forallb] in N. fold (no_dot h) in N.
    rewrite (hex_no_dot h F) in N.
    destruct (N.eqb_spec x dot) as [->|D]; [now vm_compute in Hx|].
    now vm_compute in N. }
  unfold accepts. intros A.
  destruct (shape_implicit s) eqn:I.
  - left. auto.
  - destruct (shape_ethereum s) eqn:E.
    + right. right. auto.
    + right. left. simpl in A. rewrite orb_false_r in A. auto.
Qed.

Lemma shapes_are_exclusive_witness :
  shape_implicit (lit "0x85f17cf997934a597031b2e18a9ab6ebd4b9f6a4") = false /\
  shape_named 2 (lit "0x85f17cf997934a597031b2e18a9ab6ebd4b9f6a4") = false /\
  shape_ethereum (lit "0x85f17cf997934a597031b2e18a9ab6ebd4b9f6a4") = true.
Proof.
  destruct (shapes_are_exclusive
              (lit "0x85f17cf997934a597031b2e18a9ab6ebd4b9f6a4"))
    as [(X & _) | [(_ & X & _) | H]];
    [vm_compute; reflexivity | | | exact H];
    now vm_compute in X.
Defined.
